(** * PyFxA: the OAuth client of [fxa/oauth.py]

    A shallow embedding of [fxa.oauth.Client] and of the helpers it relies
    on, followed by the properties stated for it.

    Conventions of the model.
    - A Python [str] is a [string] (a sequence of bytes); [None] is the
      [None] of an [option], or [VNone] inside a JSON-like [value].
    - A [dict] that is only looked up (a parsed JSON response) or sent as
      a request body is a [gmap string value]; the [params] of
      [get_redirect_url], whose iteration order reaches the result, is an
      insertion-ordered association list, as the dicts of Python 3.7+.
    - Methods run in a state-and-exception monad over a [world] made of
      the client object, the state of the transport adapter and the list
      of requests handed to the adapter so far.
    - The functions of [urllib.parse] are modelled as CPython 3.11
      defines them, on strings held as their UTF-8 bytes. Two checks that
      [urlsplit] makes on a host are not text processing (the syntax of a
      bracketed host, which goes through [ipaddress], and the NFKC
      normalisation of a host that is not ASCII); their verdict is the
      parameter [netloc_check], and every theorem holds whatever it is. *)

From Stdlib Require Import String Ascii List ZArith Bool Lia.
From stdpp Require Import base gmap strings list.

Set Warnings "-register-all".

(** ** Python values *)

Inductive value :=
| VNone
| VBool (b : bool)
| VInt (n : Z)
| VStr (s : string)
| VList (l : list value)
| VDict (d : gmap string value).

(** A string-or-[None] argument as a value. *)
Definition of_opt (o : option string) : value :=
  match o with
  | Some s => VStr s
  | None => VNone
  end.

(** ** Strings as Python uses them *)

Module Str.

(** [c in string.whitespace] (ASCII): space, and \t \n \v \f \r. *)
Definition is_space (c : ascii) : bool :=
  let n := nat_of_ascii c in
  Nat.eqb n 32 || (Nat.leb 9 n && Nat.leb n 13).

Definition flush (cur : string) (rest : list string) : list string :=
  match cur with
  | EmptyString => rest
  | _ => cur :: rest
  end.

Fixpoint split_ws_go (cur s : string) : list string :=
  match s with
  | EmptyString => flush cur []
  | String c s' =>
      if is_space c then flush cur (split_ws_go "" s')
      else split_ws_go (cur +:+ String c "") s'
  end.

(** [s.split()]: the maximal runs of non-whitespace characters. *)
Definition split_ws (s : string) : list string := split_ws_go "" s.

(** [s.split(sep)]: never empty, [""] splits into [[""]]. *)
Fixpoint split_on (sep : ascii) (s : string) : list string :=
  match s with
  | EmptyString => [""]
  | String c s' =>
      if Ascii.eqb c sep then "" :: split_on sep s'
      else match split_on sep s' with
           | h :: t => String c h :: t
           | [] => [String c ""]
           end
  end.

(** [s.split(sep, 1)] when [sep in s]; [None] when it is not. *)
Fixpoint cut (sep : ascii) (s : string) : option (string * string) :=
  match s with
  | EmptyString => None
  | String c s' =>
      if Ascii.eqb c sep then Some ("", s')
      else match cut sep s' with
           | Some (a, b) => Some (String c a, b)
           | None => None
           end
  end.

(** [sep.join(l)]. *)
Fixpoint join (sep : string) (l : list string) : string :=
  match l with
  | [] => ""
  | [x] => x
  | x :: rest => x +:+ sep +:+ join sep rest
  end.

(** [c in s] for a character. *)
Fixpoint mem (c : ascii) (s : string) : bool :=
  match s with
  | EmptyString => false
  | String d s' => Ascii.eqb d c || mem c s'
  end.

(** [s.replace(a, b)] for single characters. *)
Fixpoint replace (a b : ascii) (s : string) : string :=
  match s with
  | EmptyString => ""
  | String c s' => String (if Ascii.eqb c a then b else c) (replace a b s')
  end.

(** [s.startswith(p)]. *)
Definition startswith (s p : string) : bool := String.prefix p s.

End Str.

(** ** The scope matcher *)

Module Scope.

(** Normalisation of a scope set: a string is cut at white space, a
    sequence of tokens is taken as it is, anything else is malformed
    and gives the empty set. *)
Definition as_token (v : value) : option string :=
  match v with
  | VStr s => Some s
  | _ => None
  end.

Definition tokens (v : value) : list string :=
  match v with
  | VStr s => Str.split_ws s
  | VList l => default [] (mapM as_token l)
  | _ => []
  end.

(** One granted token against one requested token: equal, or a prefix
    of it that ends where a [/] of the requested token stands. *)
Definition covers (granted requested : string) : bool :=
  String.eqb granted requested || Str.startswith requested (granted +:+ "/").

(** The [/]-delimited segments of a token. *)
Definition segments (s : string) : list string := Str.split_on "/" s.

(** [g] is a hierarchical ancestor of [r]: [r] has the segments of [g]
    followed by at least one more. *)
Definition ancestor_of (g r : string) : Prop :=
  ∃ extra, extra ≠ [] ∧ segments r = segments g ++ extra.

End Scope.

(** Modelled from the spec: [scope_matches] is imported from [fxa._utils],
    which is not among the sources; this is the Scope Matcher as the
    specification words it: every requested token needs a granted token
    that is equal to it or is an ancestor of it by [/]-delimited prefix
    matching. *)
Definition scope_matches (granted requested : value) : bool :=
  forallb (λ r, existsb (λ g, Scope.covers g r) (Scope.tokens granted))
          (Scope.tokens requested).


(** ** Errors *)

(** The two errors of [fxa.errors] the client raises itself, and [Raised]
    for any other exception, by the name of its class: what the transport
    adapter raises passes through the methods as it is. *)
Inductive exn :=
| OutOfProtocolError (msg : string)
| ScopeMismatchError (granted requested : value)
| Raised (name : string).

(** ** [urllib.parse] *)

(** The verdict of the standard library on a netloc that has a bracketed
    host or a character that is not ASCII. *)
Class NetlocCheck := netloc_check : string → bool.

Module Url.

(** The characters [quote] never escapes: letters, digits and [_.-~]. *)
Definition always_safe (c : ascii) : bool :=
  let n := nat_of_ascii c in
  (Nat.leb 65 n && Nat.leb n 90) || (Nat.leb 97 n && Nat.leb n 122)
  || (Nat.leb 48 n && Nat.leb n 57) || Str.mem c "_.-~".

Definition hex_digit (n : nat) : ascii :=
  match String.get n "0123456789ABCDEF" with
  | Some c => c
  | None => "0"%char
  end.

(** ['%{:02X}'.format(byte)]. *)
Definition escape (c : ascii) : string :=
  let n := nat_of_ascii c in
  String "%" (String (hex_digit (n / 16)) (String (hex_digit (n mod 16)) "")).

(** [quote(s, safe)]. *)
Fixpoint quote (safe : string) (s : string) : string :=
  match s with
  | EmptyString => ""
  | String c s' =>
      (if always_safe c || Str.mem c safe then String c "" else escape c)
      +:+ quote safe s'
  end.

(** [quote_plus(s)], with its default [safe='']. *)
Definition quote_plus (s : string) : string :=
  if Str.mem " " s then Str.replace " " "+" (quote " " s) else quote "" s.

(** [str(v)] for a string or [None]. *)
Definition py_str (v : option string) : string :=
  match v with
  | Some s => s
  | None => "None"
  end.

(** [urlencode(params)] over the items of [params] in their order;
    values that are not strings go through [str]. *)
Definition urlencode (params : list (string * option string)) : string :=
  Str.join "&"
    (map (λ kv, quote_plus (fst kv) +:+ "=" +:+ quote_plus (py_str (snd kv)))
         params).

Definition hex_value (c : ascii) : option nat :=
  let n := nat_of_ascii c in
  if Nat.leb 48 n && Nat.leb n 57 then Some (n - 48)
  else if Nat.leb 65 n && Nat.leb n 70 then Some (n - 55)
  else if Nat.leb 97 n && Nat.leb n 102 then Some (n - 87)
  else None.

(** [unquote_to_bytes(s)]: a [%] followed by two hexadecimal digits is
    the byte they write, any other [%] stands for itself. *)
Fixpoint unquote_to_bytes (s : string) : string :=
  match s with
  | EmptyString => ""
  | String c s' =>
      if Ascii.eqb c "%" then
        match s' with
        | String h (String l s'') =>
            match hex_value h, hex_value l with
            | Some a, Some b =>
                String (ascii_of_nat (16 * a + b)) (unquote_to_bytes s'')
            | _, _ => String c (unquote_to_bytes s')
            end
        | _ => String c (unquote_to_bytes s')
        end
      else String c (unquote_to_bytes s')
  end.

(** *** Decoding UTF-8 with [errors='replace'] *)

Definition is_ascii (c : ascii) : bool := Nat.ltb (nat_of_ascii c) 128.

Definition is_continuation (c : ascii) : bool :=
  let n := nat_of_ascii c in
  Nat.leb 128 n && Nat.leb n 191.

(** The second byte after the lead of a three-byte sequence: a
    continuation byte that gives neither an overlong form (after [E0]) nor
    a surrogate (after [ED]). *)
Definition second_of_three (lead c : ascii) : bool :=
  is_continuation c
  && negb (if Nat.ltb (nat_of_ascii c) 160
           then Nat.eqb (nat_of_ascii lead) 224
           else Nat.eqb (nat_of_ascii lead) 237).

(** The same after the lead of a four-byte sequence: not overlong (after
    [F0]) and not beyond U+10FFFF (after [F4]). *)
Definition second_of_four (lead c : ascii) : bool :=
  is_continuation c
  && negb (if Nat.ltb (nat_of_ascii c) 144
           then Nat.eqb (nat_of_ascii lead) 240
           else Nat.eqb (nat_of_ascii lead) 244).

(** U+FFFD in UTF-8. *)
Definition replacement : string :=
  String (ascii_of_nat 239) (String (ascii_of_nat 191)
    (String (ascii_of_nat 189) "")).

(** [bytes.decode('utf-8', 'replace')], the result held in UTF-8 again:
    well-formed sequences stay; an invalid start byte, a lead with the
    bytes after it that were acceptable before the one that is not, and a
    sequence cut short by the end of the data are each one U+FFFD. *)
Fixpoint utf8_replace (s : string) : string :=
  match s with
  | EmptyString => ""
  | String c s1 =>
      let n := nat_of_ascii c in
      if Nat.ltb n 128 then String c (utf8_replace s1)
      else if Nat.ltb n 194 then replacement +:+ utf8_replace s1
      else if Nat.ltb n 224 then
        match s1 with
        | EmptyString => replacement
        | String c2 s2 =>
            if is_continuation c2
            then String c (String c2 (utf8_replace s2))
            else replacement +:+ utf8_replace s1
        end
      else if Nat.ltb n 240 then
        match s1 with
        | EmptyString => replacement
        | String c2 s2 =>
            if second_of_three c c2 then
              match s2 with
              | EmptyString => replacement
              | String c3 s3 =>
                  if is_continuation c3
                  then String c (String c2 (String c3 (utf8_replace s3)))
                  else replacement +:+ utf8_replace s2
              end
            else replacement +:+ utf8_replace s1
        end
      else if Nat.ltb n 245 then
        match s1 with
        | EmptyString => replacement
        | String c2 s2 =>
            if second_of_four c c2 then
              match s2 with
              | EmptyString => replacement
              | String c3 s3 =>
                  if is_continuation c3 then
                    match s3 with
                    | EmptyString => replacement
                    | String c4 s4 =>
                        if is_continuation c4
                        then String c (String c2 (String c3
                               (String c4 (utf8_replace s4))))
                        else replacement +:+ utf8_replace s3
                    end
                  else replacement +:+ utf8_replace s2
              end
            else replacement +:+ utf8_replace s1
        end
      else replacement +:+ utf8_replace s1
  end.

(** One run of ASCII characters of [unquote]: its escapes are turned into
    bytes and the bytes decoded. *)
Definition decode_run (run : string) : string :=
  utf8_replace (unquote_to_bytes run).

(** The parts of [unquote]: the maximal runs of ASCII characters are
    decoded, what stands between them is kept; [run] is the run read so
    far. *)
Fixpoint unquote_runs (run s : string) : string :=
  match s with
  | EmptyString => decode_run run
  | String c s' =>
      if is_ascii c then unquote_runs (run +:+ String c "") s'
      else decode_run run +:+ String c (unquote_runs "" s')
  end.

(** [unquote(s)], with its defaults [encoding='utf-8'] and
    [errors='replace']. *)
Definition unquote (s : string) : string :=
  if Str.mem "%" s then unquote_runs "" s else s.

(** One [name=value] field of a query string, as [parse_qsl] treats it
    with [keep_blank_values] and [strict_parsing] off: a field without
    [=] or with nothing after it is skipped. *)
Definition parse_field (name_value : string) : option (string * string) :=
  match Str.cut "=" name_value with
  | None => None
  | Some (n, v) =>
      match v with
      | EmptyString => None
      | _ => Some (unquote (Str.replace "+" " " n),
                   unquote (Str.replace "+" " " v))
      end
  end.

(** [parse_qsl(qs)], with its default [separator='&']. *)
Definition parse_qsl (qs : string) : list (string * string) :=
  omap parse_field (Str.split_on "&" qs).

(** [parsed_result[name].append(value)], or a new one-element list. *)
Definition add_value (d : gmap string (list string)) (nv : string * string)
  : gmap string (list string) :=
  match d !! nv.1 with
  | Some vs => <[nv.1 := vs ++ [nv.2]]> d
  | None => <[nv.1 := [nv.2]]> d
  end.

(** [parse_qs(qs)]. *)
Definition parse_qs (qs : string) : gmap string (list string) :=
  foldl add_value ∅ (parse_qsl qs).

(** The values a field list gives to [name], in the order of the query
    string (what [parse_qs(qs)[name]] is to hold). *)
Definition values_of (name : string) (pairs : list (string * string))
  : list string :=
  map snd (filter (λ nv, nv.1 = name) pairs).

(** *** [urlsplit], [urlparse] and [urlunparse] *)

(** [url.lstrip(_WHATWG_C0_CONTROL_OR_SPACE)]: the characters up to and
    including the space. *)
Fixpoint lstrip_blank (s : string) : string :=
  match s with
  | EmptyString => ""
  | String c s' => if Nat.leb (nat_of_ascii c) 32 then lstrip_blank s' else s
  end.

(** Tab, line feed and carriage return are taken out of the URL. *)
Definition is_unsafe (c : ascii) : bool :=
  let n := nat_of_ascii c in
  Nat.eqb n 9 || Nat.eqb n 10 || Nat.eqb n 13.

Fixpoint remove_unsafe (s : string) : string :=
  match s with
  | EmptyString => ""
  | String c s' =>
      if is_unsafe c then remove_unsafe s' else String c (remove_unsafe s')
  end.

Definition is_alpha (c : ascii) : bool :=
  let n := nat_of_ascii c in
  (Nat.leb 65 n && Nat.leb n 90) || (Nat.leb 97 n && Nat.leb n 122).

(** [scheme_chars]: letters, digits and [+-.]. *)
Definition is_scheme_char (c : ascii) : bool :=
  let n := nat_of_ascii c in
  is_alpha c || (Nat.leb 48 n && Nat.leb n 57) || Str.mem c "+-.".

Fixpoint all_chars (p : ascii → bool) (s : string) : bool :=
  match s with
  | EmptyString => true
  | String c s' => p c && all_chars p s'
  end.

(** [s.lower()] on ASCII. *)
Fixpoint lower (s : string) : string :=
  match s with
  | EmptyString => ""
  | String c s' =>
      let n := nat_of_ascii c in
      String (if Nat.leb 65 n && Nat.leb n 90 then ascii_of_nat (n + 32) else c)
             (lower s')
  end.

(** The scheme, when the text before the first [:] is one, and what
    follows it. *)
Definition split_scheme (url : string) : string * string :=
  match Str.cut ":" url with
  | Some (String c before, after) =>
      if is_alpha c && all_chars is_scheme_char (String c before)
      then (lower (String c before), after)
      else ("", url)
  | _ => ("", url)
  end.

(** [_splitnetloc(url, 2)] past the two slashes: up to the first of
    [/], [?] and [#]. *)
Fixpoint span_netloc (s : string) : string * string :=
  match s with
  | EmptyString => ("", "")
  | String c s' =>
      if Str.mem c "/?#" then ("", s)
      else let (host, rest) := span_netloc s' in (String c host, rest)
  end.

Definition split_netloc (url : string) : string * string :=
  match url with
  | String c1 (String c2 rest) =>
      if Ascii.eqb c1 "/" && Ascii.eqb c2 "/" then span_netloc rest
      else ("", url)
  | _ => ("", url)
  end.

(** [url.split(sep, 1)] when [sep in url]. *)
Definition split_first (sep : ascii) (url : string) : string * string :=
  match Str.cut sep url with
  | Some (before, after) => (before, after)
  | None => (url, "")
  end.

Section Parse.

Context {library : NetlocCheck}.

(** A netloc with one bracket and not the other is refused; one with both,
    or with a character that is not ASCII, goes through the checks of the
    library ([_check_bracketed_netloc], [_checknetloc]); any other is
    accepted. *)
Definition netloc_accepted (netloc : string) : bool :=
  if xorb (Str.mem "[" netloc) (Str.mem "]" netloc) then false
  else if Str.mem "[" netloc || negb (all_chars is_ascii netloc)
       then netloc_check netloc
       else true.

Record SplitResult := {
  split_scheme_of : string;
  split_netloc_of : string;
  split_path : string;
  split_query : string;
  split_fragment_of : string
}.

(** [urlsplit(url)]. *)
Definition urlsplit (url : string) : exn + SplitResult :=
  let url := remove_unsafe (lstrip_blank url) in
  let (scheme, url) := split_scheme url in
  let (netloc, url) := split_netloc url in
  if netloc_accepted netloc then
    let (url, fragment) := split_first "#" url in
    let (url, query) := split_first "?" url in
    inr {| split_scheme_of := scheme; split_netloc_of := netloc;
           split_path := url; split_query := query;
           split_fragment_of := fragment |}
  else inl (Raised "ValueError").

End Parse.

(** [s.rsplit(sep, 1)] when [sep in s]. *)
Fixpoint rcut (sep : ascii) (s : string) : option (string * string) :=
  match s with
  | EmptyString => None
  | String c s' =>
      match rcut sep s' with
      | Some (a, b) => Some (String c a, b)
      | None => if Ascii.eqb c sep then Some ("", s') else None
      end
  end.

(** [_splitparams(url)]: the parameters follow the first [;] of the last
    segment of the path. *)
Definition splitparams (url : string) : string * string :=
  match rcut "/" url with
  | Some (dir, last) =>
      match Str.cut ";" last with
      | Some (name, params) => (dir +:+ "/" +:+ name, params)
      | None => (url, "")
      end
  | None => split_first ";" url
  end.

Definition uses_params (scheme : string) : bool :=
  existsb (String.eqb scheme)
    [""; "ftp"; "hdl"; "prospero"; "http"; "imap"; "https"; "shttp"; "rtsp";
     "rtspu"; "sip"; "sips"; "mms"; "sftp"; "tel"].

Definition uses_netloc (scheme : string) : bool :=
  existsb (String.eqb scheme)
    [""; "ftp"; "http"; "gopher"; "nntp"; "telnet"; "imap"; "wais"; "file";
     "mms"; "https"; "shttp"; "snews"; "prospero"; "rtsp"; "rtspu"; "rsync";
     "svn"; "svn+ssh"; "sftp"; "nfs"; "git"; "git+ssh"; "ws"; "wss"].

Record ParseResult := {
  scheme : string;
  netloc : string;
  path : string;
  params : string;
  query : string;
  fragment : string
}.

(** [urlparse(url)] of a string. *)
Definition urlparse {library : NetlocCheck} (url : string)
  : exn + ParseResult :=
  match urlsplit url with
  | inl e => inl e
  | inr r =>
      let (url, params) :=
        if uses_params (split_scheme_of r) && Str.mem ";" (split_path r)
        then splitparams (split_path r)
        else (split_path r, "") in
      inr {| scheme := split_scheme_of r; netloc := split_netloc_of r;
             path := url; params := params; query := split_query r;
             fragment := split_fragment_of r |}
  end.

(** [bool(v)]. *)
Definition truthy (v : value) : bool :=
  match v with
  | VNone => false
  | VBool b => b
  | VInt n => negb (Z.eqb n 0)
  | VStr s => negb (String.eqb s "")
  | VList l => negb (Nat.eqb (length l) 0)
  | VDict d => negb (Nat.eqb (size d) 0)
  end.

(** [urlparse(v)] of any value: a value that is not a string and is false
    is taken for the empty URL, one that is true has no [decode]. *)
Definition urlparse_value {library : NetlocCheck} (v : value)
  : exn + ParseResult :=
  match v with
  | VStr url => urlparse url
  | _ =>
      if truthy v then inl (Raised "AttributeError")
      else inr {| scheme := ""; netloc := ""; path := ""; params := "";
                  query := ""; fragment := "" |}
  end.

(** [r._replace(query=q)]. *)
Definition replace_query (r : ParseResult) (q : string) : ParseResult :=
  {| scheme := scheme r; netloc := netloc r; path := path r;
     params := params r; query := q; fragment := fragment r |}.

(** What [urlunparse] writes before the query: scheme, netloc, path and
    parameters. *)
Definition front (r : ParseResult) : string :=
  let url := match params r with
             | EmptyString => path r
             | p => path r +:+ ";" +:+ p
             end in
  let url :=
    if negb (String.eqb (netloc r) "")
       || (negb (String.eqb (scheme r) "") && uses_netloc (scheme r)
           && negb (String.prefix "//" url))
    then "//" +:+ netloc r +:+
         match url with
         | EmptyString => ""
         | String c _ => if Ascii.eqb c "/" then url else "/" +:+ url
         end
    else url in
  match scheme r with
  | EmptyString => url
  | sch => sch +:+ ":" +:+ url
  end.

(** [urlunparse(r)]: an empty query or fragment is left out with its
    delimiter. *)
Definition urlunparse (r : ParseResult) : string :=
  let url := front r in
  let url := match query r with
             | EmptyString => url
             | q => url +:+ "?" +:+ q
             end in
  match fragment r with
  | EmptyString => url
  | f => url +:+ "#" +:+ f
  end.

End Url.

(** ** The client and its world *)

Section Model.

(** The state of the transport adapter (connections, server, ...). *)
Context {N : Type}.

(** [fxa._utils.APIClient] as the client uses it: a base URL and [post],
    which returns the parsed JSON body or raises. *)
Record APIClient := {
  server_url : string;
  post : string → gmap string value → N → N * (exn + gmap string value)
}.

Record Client := {
  client_id : option string;
  client_secret : option string;
  apiclient : APIClient
}.

Record world := {
  this : Client;
  wire : N;
  sent : list (string * gmap string value)
}.

Definition M (A : Type) : Type := world → world * (exn + A).

Definition ret {A} (a : A) : M A := λ w, (w, inr a).

Definition raise {A} (e : exn) : M A := λ w, (w, inl e).

Definition bind {A B} (c : M A) (k : A → M B) : M B :=
  λ w, match c w with
       | (w', inr a) => k a w'
       | (w', inl e) => (w', inl e)
       end.

(** The outcome of a call that touches neither the client nor the
    transport. *)
Definition lift {A} (r : exn + A) : M A := λ w, (w, r).

(** Reading the client object. *)
Definition get_self : M Client := λ w, (w, inr (this w)).

(** [self.apiclient.post(url, body)]. *)
Definition apiclient_post (url : string) (body : gmap string value)
  : M (gmap string value) :=
  λ w, let (n, r) := post (apiclient (this w)) url body (wire w) in
       ({| this := this w; wire := n; sent := sent w ++ [(url, body)] |}, r).

End Model.

Arguments APIClient : clear implicits.
Arguments Client : clear implicits.
Arguments world : clear implicits.
Arguments M : clear implicits.

#[global] Instance M_ret {N} : MRet (M N) := λ A a, ret a.
#[global] Instance M_bind {N} : MBind (M N) := λ A B k c, bind c k.

Definition DEFAULT_SERVER_URL : string := "https://oauth.accounts.firefox.com".

(** ** [fxa.oauth.Client] *)

(** The methods of the class and their parameters after [self], as the
    [def] lines give them: a parameter is required or has a default,
    which in this class is always [None] or a string. *)
Inductive method :=
| GetRedirectUrl
| TradeCode
| AuthorizeCode
| AuthorizeToken
| VerifyToken.

Inductive default_value :=
| Required
| Default (d : option string).

Definition signature (m : method) : list (string * default_value) :=
  match m with
  | GetRedirectUrl =>
      [("state", Default (Some "")); ("redirect_uri", Default None);
       ("scope", Default None); ("action", Default None);
       ("email", Default None); ("client_id", Default None)]
  | TradeCode =>
      [("code", Required); ("client_id", Default None);
       ("client_secret", Default None)]
  | AuthorizeCode =>
      [("assertion", Required); ("scope", Default None);
       ("client_id", Default None)]
  | AuthorizeToken =>
      [("assertion", Required); ("scope", Default None);
       ("client_id", Default None)]
  | VerifyToken =>
      [("token", Required); ("scope", Default None)]
  end.

(** [accepts m p]: [p] is a parameter of method [m]. *)
Definition accepts (m : method) (p : string) : bool :=
  existsb (λ q, String.eqb q.1 p) (signature m).

(** [if arg is None: arg = configured], the way every override is
    resolved. *)
Definition or_configured (arg configured : option string) : option string :=
  match arg with
  | None => configured
  | Some _ => arg
  end.

Section Methods.

Context {N : Type} {library : NetlocCheck}.

(** The constructor of [fxa._utils.APIClient]. *)
Variable new_APIClient : string → APIClient N.

(** The [server_url] argument of the constructor: absent, a URL, or an
    adapter object. *)
Inductive server_arg :=
| NoServer
| ServerUrl (url : string)
| ServerObject (api : APIClient N).

Definition __init__ (client_id client_secret : option string)
    (server_url : server_arg) : Client N :=
  {| client_id := client_id;
     client_secret := client_secret;
     apiclient := match server_url with
                  | NoServer => new_APIClient DEFAULT_SERVER_URL
                  | ServerUrl url => new_APIClient url
                  | ServerObject api => api
                  end |}.

(** The [server_url] property. *)
Definition client_server_url (self : Client N) : string :=
  server_url (apiclient self).

(** [if v is not None: params[k] = v] on an insertion-ordered dict that
    has no key [k] yet. *)
Definition set_if_given (k : string) (v : option string)
    (params : list (string * option string)) : list (string * option string) :=
  match v with
  | Some _ => params ++ [(k, v)]
  | None => params
  end.

(** The [params] dict of [get_redirect_url]. *)
Definition redirect_params (self : Client N)
    (state redirect_uri scope action email client_id' : option string)
  : list (string * option string) :=
  let client_id := or_configured client_id' (client_id self) in
  let params := [("client_id", client_id); ("state", state)] in
  let params := set_if_given "redirect_uri" redirect_uri params in
  let params := set_if_given "scope" scope params in
  let params := set_if_given "action" action params in
  set_if_given "email" email params.

(** [state] is [None] when the caller leaves the argument out, and the
    default of the [def] line applies; the other parameters default to
    [None], so leaving them out is passing [None]. *)
Definition get_redirect_url (state : option (option string))
    (redirect_uri scope action email client_id : option string)
  : M N string :=
  let state := default (Some "") state in
  self ← get_self;
  let params :=
    redirect_params self state redirect_uri scope action email client_id in
  let query_str := Url.urlencode params in
  authorization_url ←
    lift (Url.urlparse (client_server_url self +:+ "/v1/authorization"));
  mret (Url.urlunparse (Url.replace_query authorization_url query_str)).

(** The [body] dict of [trade_code]. *)
Definition token_body (self : Client N) (code : string)
    (client_id' client_secret' : option string) : gmap string value :=
  let client_id := or_configured client_id' (client_id self) in
  let client_secret := or_configured client_secret' (client_secret self) in
  <["client_secret" := of_opt client_secret]>
    (<["client_id" := of_opt client_id]> (<["code" := VStr code]> ∅)).

Definition trade_code (code : string) (client_id client_secret : option string)
  : M N value :=
  self ← get_self;
  let url := "/v1/token" in
  let body := token_body self code client_id client_secret in
  resp ← apiclient_post url body;
  match resp !! "access_token" with
  | None => raise (OutOfProtocolError "access_token missing in OAuth response")
  | Some access_token => mret access_token
  end.

(** [if scope is not None: body["scope"] = scope]. *)
Definition with_scope (scope : option string) (body : gmap string value)
  : gmap string value :=
  match scope with
  | Some s => <["scope" := VStr s]> body
  | None => body
  end.

(** The [body] dict of [authorize_code]. *)
Definition code_body (self : Client N) (assertion : string)
    (scope client_id' : option string) : gmap string value :=
  let client_id := or_configured client_id' (client_id self) in
  with_scope scope
    (<["state" := VStr "x"]>
       (<["assertion" := VStr assertion]>
          (<["client_id" := of_opt client_id]> ∅))).

(** [query_params["code"][0]], with [KeyError] and [IndexError] caught. *)
Definition first_code (query_params : gmap string (list string))
  : option string :=
  match query_params !! "code" with
  | Some (code :: _) => Some code
  | _ => None
  end.

Definition authorize_code (assertion : string) (scope client_id : option string)
  : M N string :=
  self ← get_self;
  let url := "/v1/authorization" in
  let body := code_body self assertion scope client_id in
  resp ← apiclient_post url body;
  match resp !! "redirect" with
  | None => raise (OutOfProtocolError "redirect missing in OAuth response")
  | Some redirect =>
      (* what [urlparse] raises is raised before the [try] is entered *)
      parsed ← lift (Url.urlparse_value redirect);
      let query_params := Url.parse_qs (Url.query parsed) in
      match first_code query_params with
      | Some code => mret code
      | None => raise (OutOfProtocolError "code missing in OAuth redirect url")
      end
  end.

(** The [body] dict of [authorize_token]. *)
Definition implicit_body (self : Client N) (assertion : string)
    (scope client_id' : option string) : gmap string value :=
  let client_id := or_configured client_id' (client_id self) in
  with_scope scope
    (<["state" := VStr "x"]>
       (<["response_type" := VStr "token"]>
          (<["assertion" := VStr assertion]>
             (<["client_id" := of_opt client_id]> ∅)))).

Definition authorize_token (assertion : string) (scope client_id : option string)
  : M N value :=
  self ← get_self;
  let url := "/v1/authorization" in
  let body := implicit_body self assertion scope client_id in
  resp ← apiclient_post url body;
  match resp !! "access_token" with
  | None => raise (OutOfProtocolError "access_token missing in OAuth response")
  | Some access_token => mret access_token
  end.

(** The [body] dict of [verify_token]. *)
Definition verify_body (token : string) : gmap string value :=
  <["token" := VStr token]> ∅.

(** [[k for k in ('user', 'scope', 'client_id') if k not in resp]]. *)
Definition missing_keys (resp : gmap string value) : list string :=
  filter (λ k, resp !! k = None) ["user"; "scope"; "client_id"].

Definition verify_token (token : string) (scope : value)
  : M N (gmap string value) :=
  let url := "/v1/verify" in
  let body := verify_body token in
  resp ← apiclient_post url body;
  let missing_attrs := Str.join ", " (missing_keys resp) in
  match missing_attrs with
  | String _ _ =>
      let error_msg := missing_attrs +:+ " missing in OAuth response" in
      raise (OutOfProtocolError error_msg)
  | EmptyString =>
      match scope with
      | VNone => mret resp
      | _ =>
          match resp !! "scope" with
          | Some authorized_scope =>
              if scope_matches authorized_scope scope then mret resp
              else raise (ScopeMismatchError authorized_scope scope)
          | None => raise (Raised "KeyError")
          end
      end
  end.

(** The adapter of world [w] answers [resp] to [post(url, body)]. *)
Definition responds (w : world N) (url : string) (body resp : gmap string value)
  : Prop :=
  (post (apiclient (this w)) url body (wire w)).2 = inr resp.

End Methods.

(** ** A scripted transport for concrete runs

    The adapter state is the number of requests served; every request is
    answered with the same canned outcome. *)

Definition canned (url : string) (answer : exn + gmap string value)
  : APIClient nat :=
  {| server_url := url;
     post := λ _ _ n, (S n, answer) |}.

Definition canned_world (client_id client_secret : option string)
    (answer : exn + gmap string value) : world nat :=
  {| this := __init__ (λ url, canned url answer) client_id client_secret
               NoServer;
     wire := 0;
     sent := [] |}.

(** A library that accepts every netloc left to its verdict. *)
Definition lenient : NetlocCheck := λ _, true.

(** The scripted world of a client configured with [url] as its server. *)
Definition canned_world_at (url : string) (client_id client_secret : option string)
    (answer : exn + gmap string value) : world nat :=
  {| this := __init__ (λ url, canned url answer) client_id client_secret
               (ServerUrl url);
     wire := 0;
     sent := [] |}.

(** A verification record granting [profile], a token response and two
    redirect responses, for concrete runs. *)
Definition sample_record : gmap string value :=
  <["user" := VStr "6f8a1c"]>
    (<["scope" := VStr "profile"]> (<["client_id" := VStr "abc"]> ∅)).


Definition sample_token : gmap string value :=
  <["access_token" := VStr "yeah"]> ∅.

Definition sample_redirect : gmap string value :=
  <["redirect" := VStr "https://x/?code=abc123&state=x"]> ∅.


(** More concrete data: a transport failure, a redirect whose URL has no
    query, and one whose [code] needs escaping. *)
Definition sample_failure : exn := Raised "ClientError".

Definition sample_redirect_bare : gmap string value :=
  <["redirect" := VStr "https://x/cb#code=abc123"]> ∅.

(** Redirects whose URL [urlparse] refuses, without and with [code]
    values, and redirects that give [code] no value. *)
Definition sample_redirect_invalid : gmap string value :=
  <["redirect" := VStr "https://[x/?state=x"]> ∅.


Definition sample_redirect_blank : gmap string value :=
  <["redirect" := VStr "https://x/?code=&state=x"]> ∅.

Definition sample_redirect_bare_name : gmap string value :=
  <["redirect" := VStr "https://x/?code&state=x"]> ∅.

Definition sample_items : list (string * option string) :=
  [("code", Some "a b/c&d=e"); ("state", Some "x")].

Definition sample_redirect_escaped : gmap string value :=
  <["redirect" := VStr ("https://x/cb" +:+ "?" +:+ Url.urlencode sample_items)]> ∅.

(** * Properties *)

(** ** Strings *)

Section StringFacts.

Lemma append_cons (c : ascii) (a b : string) :
  String c a +:+ b = String c (a +:+ b).
Proof. reflexivity. Qed.

Lemma append_nil_l (a : string) : "" +:+ a = a.
Proof. reflexivity. Qed.

Lemma append_assoc (a b c : string) : (a +:+ b) +:+ c = a +:+ (b +:+ c).
Proof.
  induction a as [|x a IH]; [done |].
  by rewrite !append_cons, IH.
Qed.

Lemma append_empty_r (a : string) : a +:+ "" = a.
Proof.
  induction a as [|x a IH]; [done |].
  by rewrite append_cons, IH.
Qed.

Lemma prefix_spec (p s : string) :
  String.prefix p s = true ↔ ∃ rest, s = p +:+ rest.
Proof.
  revert s; induction p as [|c p IH]; intros [|d s]; simpl.
  - split; [intros _; by exists "" | done].
  - split; [intros _; by exists (String d s) | done].
  - split; [done | intros [rest H]; discriminate H].
  - destruct (ascii_dec c d) as [->|Hne].
    + rewrite IH. split; intros [rest H]; exists rest;
        rewrite append_cons in *; congruence.
    + split; [done | intros [rest H]].
      rewrite append_cons in H. congruence.
Qed.

Lemma split_on_nonempty (sep : ascii) (s : string) : Str.split_on sep s ≠ [].
Proof.
  induction s as [|c s IH]; simpl; [done |].
  destruct (Ascii.eqb c sep); [done |].
  by destruct (Str.split_on sep s).
Qed.

Lemma split_on_app (sep : ascii) (a b : string) :
  Str.split_on sep (a +:+ String sep b)
  = Str.split_on sep a ++ Str.split_on sep b.
Proof.
  induction a as [|c a IH].
  - rewrite append_nil_l. simpl. by rewrite Ascii.eqb_refl.
  - rewrite append_cons. simpl.
    destruct (Ascii.eqb c sep); [by rewrite IH |].
    rewrite IH. pose proof (split_on_nonempty sep a) as Hne.
    by destruct (Str.split_on sep a).
Qed.

Lemma join_cons (sep x : string) (l : list string) :
  l ≠ [] → Str.join sep (x :: l) = x +:+ sep +:+ Str.join sep l.
Proof. by destruct l. Qed.

Lemma join_app (sep : string) (l1 l2 : list string) :
  l1 ≠ [] → l2 ≠ [] →
  Str.join sep (l1 ++ l2) = Str.join sep l1 +:+ sep +:+ Str.join sep l2.
Proof.
  intros H1 H2. induction l1 as [|x l1 IH]; [done |].
  destruct l1 as [|y l1].
  - simpl app. by rewrite join_cons.
  - rewrite <- app_comm_cons. rewrite join_cons by done.
    rewrite IH by done. rewrite (join_cons _ x (y :: l1)) by done.
    by rewrite !append_assoc.
Qed.

Lemma join_split_on (sep : ascii) (s : string) :
  Str.join (String sep "") (Str.split_on sep s) = s.
Proof.
  induction s as [|c s IH]; simpl; [done |].
  destruct (Ascii.eqb_spec c sep) as [->|Hne].
  - rewrite join_cons by apply split_on_nonempty. by rewrite IH.
  - pose proof (split_on_nonempty sep s) as Hs.
    destruct (Str.split_on sep s) as [|h t]; [done |].
    destruct t as [|h' t].
    + simpl in *. by rewrite IH.
    + rewrite join_cons by done. rewrite join_cons in IH by done.
      by rewrite append_cons, IH.
Qed.

End StringFacts.

(** ** The scope matcher *)

Section ScopeFacts.

Lemma covers_spec (g r : string) :
  Scope.covers g r = true ↔ g = r ∨ Scope.ancestor_of g r.
Proof.
  unfold Scope.covers, Str.startswith, Scope.ancestor_of, Scope.segments.
  rewrite orb_true_iff, String.eqb_eq, prefix_spec. split.
  - intros [->|[rest ->]]; [by left | right].
    exists (Str.split_on "/" rest). split; [apply split_on_nonempty |].
    rewrite append_assoc. apply split_on_app.
  - intros [->|(extra & Hne & Hseg)]; [by left | right].
    exists (Str.join "/" extra).
    rewrite <- (join_split_on "/" r), Hseg.
    rewrite join_app by (done || apply split_on_nonempty).
    by rewrite join_split_on, append_assoc.
Qed.

Lemma scope_matches_tokens (granted requested : value) :
  scope_matches granted requested = true ↔
  ∀ r, r ∈ Scope.tokens requested →
       ∃ g, g ∈ Scope.tokens granted ∧ (g = r ∨ Scope.ancestor_of g r).
Proof.
  unfold scope_matches. rewrite forallb_forall. split.
  - intros H r Hr. apply list_elem_of_In in Hr. specialize (H r Hr).
    apply existsb_exists in H as (g & Hg & Hc).
    exists g. split; [by apply list_elem_of_In | by apply covers_spec].
  - intros H r Hr. apply list_elem_of_In in Hr.
    destruct (H r Hr) as (g & Hg & Hc).
    apply existsb_exists. exists g.
    split; [by apply list_elem_of_In | by apply covers_spec].
Qed.

(** C1. [scope_matches(granted, requested)] is true exactly when every
    requested scope token has a granted token that is equal to it or is a
    hierarchical ancestor of it under [/]-delimited prefix matching; the
    four sample cases evaluate as stated. *)
Theorem scope_matches_spec :
  (∀ granted requested,
     scope_matches granted requested = true ↔
     ∀ r, r ∈ Scope.tokens requested →
          ∃ g, g ∈ Scope.tokens granted ∧ (g = r ∨ Scope.ancestor_of g r))
  ∧ scope_matches (VStr "profile email") (VStr "profile") = true
  ∧ scope_matches (VStr "profile/email") (VStr "profile") = false
  ∧ scope_matches (VStr "") (VStr "profile") = false
  ∧ scope_matches (VStr "profile") (VStr "") = true.
Proof.
  split; [apply scope_matches_tokens |].
  repeat split; reflexivity.
Qed.

End ScopeFacts.

(** ** Running a method *)

Ltac run_method :=
  unfold mbind, mret, M_bind, M_ret, bind, ret, raise, apiclient_post,
    get_self; simpl.

Section RunFacts.

Context {N : Type}.
Implicit Types (w : world N) (resp : gmap string value).

(** What [verify_token] makes of the answer it got, once the request is
    out. *)
Lemma verify_token_run w token scope :
  verify_token token scope w =
  let answer := post (apiclient (this w)) "/v1/verify" (verify_body token)
                  (wire w) in
  ({| this := this w; wire := answer.1;
      sent := sent w ++ [("/v1/verify", verify_body token)] |},
   match answer.2 with
   | inl e => inl e
   | inr resp =>
       match Str.join ", " (missing_keys resp) with
       | String _ _ =>
           inl (OutOfProtocolError
                  (Str.join ", " (missing_keys resp)
                   +:+ " missing in OAuth response"))
       | EmptyString =>
           match scope with
           | VNone => inr resp
           | _ =>
               match resp !! "scope" with
               | Some granted =>
                   if scope_matches granted scope then inr resp
                   else inl (ScopeMismatchError granted scope)
               | None => inl (Raised "KeyError")
               end
           end
       end
   end).
Proof.
  unfold verify_token. run_method.
  destruct (post _ _ _ _) as [n [e|resp]]; simpl; [done |].
  destruct (Str.join ", " (missing_keys resp)); [| done].
  destruct scope; try done;
    destruct (resp !! "scope") as [g|]; try done;
    by destruct (scope_matches g _).
Qed.

(** The eight shapes of [missing_keys], by which fields are there. *)
Lemma missing_keys_cases resp :
  missing_keys resp =
  (if resp !! "user" is None then ["user"] else [])
  ++ (if resp !! "scope" is None then ["scope"] else [])
  ++ (if resp !! "client_id" is None then ["client_id"] else []).
Proof.
  unfold missing_keys. rewrite !filter_cons, filter_nil.
  repeat case_decide;
    destruct (resp !! "user"), (resp !! "scope"), (resp !! "client_id");
    done.
Qed.



Lemma missing_keys_join_empty resp :
  Str.join ", " (missing_keys resp) = "" ↔ missing_keys resp = [].
Proof.
  rewrite missing_keys_cases.
  destruct (resp !! "user"), (resp !! "scope"), (resp !! "client_id");
    by split.
Qed.

End RunFacts.

(** ** Token verification *)

Section VerifyToken.

Context {N : Type}.
Implicit Types (w : world N) (resp : gmap string value).


(** C2. With a scope argument that is not [None] and a response holding
    the three required fields, [verify_token] raises [ScopeMismatchError]
    with the granted and the requested scope exactly when the granted scope
    does not satisfy the requested one, and returns the whole response when
    it does. *)
Theorem verify_token_scope_check w token scope resp granted :
  scope ≠ VNone →
  responds w "/v1/verify" (verify_body token) resp →
  missing_keys resp = [] →
  resp !! "scope" = Some granted →
  let outcome := (verify_token token scope w).2 in
  (outcome = inl (ScopeMismatchError granted scope)
   ↔ scope_matches granted scope = false)
  ∧ (outcome = inr resp ↔ scope_matches granted scope = true)
  ∧ ((∃ e, outcome = inl e) ↔ scope_matches granted scope = false).
Proof.
  intros Hscope Hresp Hall Hgranted. unfold responds in Hresp. cbv zeta.
  rewrite verify_token_run. cbv zeta. cbn [snd]. rewrite Hresp.
  apply missing_keys_join_empty in Hall. rewrite Hall, Hgranted.
  destruct (scope_matches granted scope); destruct scope; try done;
    (split; [| split]); split; try done; try by intros [e He].
  all: by eexists.
Qed.

(** No method assigns to a field of [self]. *)
Lemma verify_token_this w token scope :
  this (verify_token token scope w).1 = this w.
Proof. by rewrite verify_token_run. Qed.

(** C9. Two calls of [verify_token] with the same arguments, to each of
    which the transport gives the same outcome, have the same outcome (the
    same validated record when there is one), and no field of the client
    changes in either call. *)
Theorem verify_token_idempotent w token scope :
  let first := verify_token token scope w in
  let second := verify_token token scope first.1 in
  (post (apiclient (this w)) "/v1/verify" (verify_body token) (wire w)).2
  = (post (apiclient (this w)) "/v1/verify" (verify_body token)
       (wire first.1)).2 →
  first.2 = second.2
  ∧ this first.1 = this w
  ∧ this second.1 = this first.1.
Proof.
  cbv zeta. intros Hsame.
  split; [| by rewrite !verify_token_this].
  rewrite (verify_token_run (verify_token token scope w).1).
  rewrite verify_token_this. cbv zeta. cbn [snd]. rewrite <- Hsame.
  by rewrite verify_token_run.
Qed.

End VerifyToken.

(** Concrete runs against the scripted transport. *)


Lemma verify_token_scope_check_witness :
  let w := canned_world (Some "abc") None (inr sample_record) in
  (VStr "profile/email" ≠ VNone
   ∧ responds w "/v1/verify" (verify_body "abc") sample_record
   ∧ missing_keys sample_record = []
   ∧ sample_record !! "scope" = Some (VStr "profile"))
  ∧ (verify_token "abc" (VStr "profile/email") w).2 = inr sample_record.
Proof.
  split; [by repeat split |].
  apply (verify_token_scope_check
           (canned_world (Some "abc") None (inr sample_record))
           "abc" (VStr "profile/email") sample_record (VStr "profile"));
    [discriminate | reflexivity | reflexivity | reflexivity | reflexivity].
Defined.

(** The other sample of the specification: a token granting only
    [display_name] does not verify for [profile/email]. *)
Example verify_token_display_name :
  let resp : gmap string value :=
    <["scope" := VStr "display_name"]> sample_record in
  (verify_token "abc" (VStr "profile/email")
     (canned_world (Some "abc") None (inr resp))).2
  = inl (ScopeMismatchError (VStr "display_name") (VStr "profile/email")).
Proof. reflexivity. Qed.

Lemma verify_token_idempotent_witness :
  let w := canned_world (Some "abc") None (inr sample_record) in
  let first := verify_token "abc" (VStr "profile") w in
  let second := verify_token "abc" (VStr "profile") first.1 in
  first.2 = inr sample_record ∧ second.2 = inr sample_record
  ∧ first.2 = second.2.
Proof.
  split; [reflexivity | split; [reflexivity |]].
  refine (proj1 (verify_token_idempotent
                   (canned_world (Some "abc") None (inr sample_record))
                   "abc" (VStr "profile") _)).
  reflexivity.
Defined.


(** ** Query strings *)

Section QueryFacts.

Lemma values_of_cons (name : string) (nv : string * string) pairs :
  Url.values_of name (nv :: pairs) =
  if decide (nv.1 = name) then nv.2 :: Url.values_of name pairs
  else Url.values_of name pairs.
Proof.
  unfold Url.values_of. rewrite filter_cons. by case_decide.
Qed.

(** [parse_qs] groups the values by name and keeps their order. *)
Lemma add_values_lookup (d : gmap string (list string)) pairs name :
  foldl Url.add_value d pairs !! name =
  match Url.values_of name pairs with
  | [] => d !! name
  | vs => Some (default [] (d !! name) ++ vs)
  end.
Proof.
  revert d. induction pairs as [|[n v] pairs IH]; intros d; [done |].
  simpl foldl. rewrite IH, values_of_cons. unfold Url.add_value. simpl.
  case_decide as Hn.
  - subst n. destruct (d !! name) as [old|] eqn:Hd;
      rewrite lookup_insert_eq; simpl;
      destruct (Url.values_of name pairs); try done.
    by rewrite <- app_assoc.
  - destruct (d !! n); by rewrite lookup_insert_ne.
Qed.

Lemma parse_qs_lookup (qs name : string) :
  Url.parse_qs qs !! name =
  match Url.values_of name (Url.parse_qsl qs) with
  | [] => None
  | vs => Some vs
  end.
Proof.
  unfold Url.parse_qs. rewrite add_values_lookup, lookup_empty.
  by destruct (Url.values_of _ _).
Qed.

Lemma first_code_parse_qs (qs : string) :
  first_code (Url.parse_qs qs) = head (Url.values_of "code" (Url.parse_qsl qs)).
Proof.
  unfold first_code. rewrite parse_qs_lookup.
  by destruct (Url.values_of _ _).
Qed.

(** A field without [=] gives no parameter, and neither does a field
    with nothing after its [=]. *)
Lemma parse_field_no_equals (f : string) :
  Str.cut "=" f = None → Url.parse_field f = None.
Proof. unfold Url.parse_field. by intros ->. Qed.

Lemma parse_field_blank (f n : string) :
  Str.cut "=" f = Some (n, "") → Url.parse_field f = None.
Proof. unfold Url.parse_field. by intros ->. Qed.

(** A name has no value when no field of the query gives it one. *)
Lemma values_of_nil (name qs : string) :
  (∀ f v, f ∈ Str.split_on "&" qs → Url.parse_field f ≠ Some (name, v)) →
  Url.values_of name (Url.parse_qsl qs) = [].
Proof.
  unfold Url.parse_qsl. intros Hnone.
  induction (Str.split_on "&" qs) as [|f fs IH]; [done |].
  simpl. destruct (Url.parse_field f) as [[n v]|] eqn:Hf.
  - rewrite values_of_cons. simpl. case_decide as Hn.
    + subst n. exfalso. apply (Hnone f v); [left | done].
    + apply IH. intros g u Hg. apply Hnone. by right.
  - apply IH. intros g u Hg. apply Hnone. by right.
Qed.



End QueryFacts.

(** ** Code and token exchange *)

Section Exchange.

Context {N : Type} {library : NetlocCheck}.
Implicit Types (w : world N) (resp : gmap string value).

Lemma trade_code_run w code cid secret :
  trade_code code cid secret w =
  let body := token_body (this w) code cid secret in
  let answer := post (apiclient (this w)) "/v1/token" body (wire w) in
  ({| this := this w; wire := answer.1;
      sent := sent w ++ [("/v1/token", body)] |},
   match answer.2 with
   | inl e => inl e
   | inr resp =>
       match resp !! "access_token" with
       | Some access_token => inr access_token
       | None =>
           inl (OutOfProtocolError "access_token missing in OAuth response")
       end
   end).
Proof.
  unfold trade_code. run_method.
  destruct (post _ _ _ _) as [n [e|resp]]; simpl; [done |].
  by destruct (resp !! "access_token").
Qed.

Lemma authorize_token_run w assertion scope cid :
  authorize_token assertion scope cid w =
  let body := implicit_body (this w) assertion scope cid in
  let answer := post (apiclient (this w)) "/v1/authorization" body (wire w) in
  ({| this := this w; wire := answer.1;
      sent := sent w ++ [("/v1/authorization", body)] |},
   match answer.2 with
   | inl e => inl e
   | inr resp =>
       match resp !! "access_token" with
       | Some access_token => inr access_token
       | None =>
           inl (OutOfProtocolError "access_token missing in OAuth response")
       end
   end).
Proof.
  unfold authorize_token. run_method.
  destruct (post _ _ _ _) as [n [e|resp]]; simpl; [done |].
  by destruct (resp !! "access_token").
Qed.

Lemma authorize_code_run w assertion scope cid :
  authorize_code assertion scope cid w =
  let body := code_body (this w) assertion scope cid in
  let answer := post (apiclient (this w)) "/v1/authorization" body (wire w) in
  ({| this := this w; wire := answer.1;
      sent := sent w ++ [("/v1/authorization", body)] |},
   match answer.2 with
   | inl e => inl e
   | inr resp =>
       match resp !! "redirect" with
       | None => inl (OutOfProtocolError "redirect missing in OAuth response")
       | Some redirect =>
           match Url.urlparse_value redirect with
           | inl e => inl e
           | inr parsed =>
               match Url.values_of "code" (Url.parse_qsl (Url.query parsed)) with
               | code :: _ => inr code
               | [] =>
                   inl (OutOfProtocolError "code missing in OAuth redirect url")
               end
           end
       end
   end).
Proof.
  unfold authorize_code. run_method.
  destruct (post _ _ _ _) as [n [e|resp]]; simpl; [done |].
  destruct (resp !! "redirect") as [redirect|]; [| done].
  unfold lift. destruct (Url.urlparse_value redirect) as [e|parsed]; [done |].
  rewrite first_code_parse_qs.
  by destruct (Url.values_of _ _).
Qed.

(** C4. Given the response to the token-exchange request, [trade_code]
    returns its [access_token] value as it is when the field is there, and
    raises [OutOfProtocolError] when it is not, in particular for the empty
    response. *)
Theorem trade_code_result w code cid secret resp :
  responds w "/v1/token" (token_body (this w) code cid secret) resp →
  let outcome := (trade_code code cid secret w).2 in
  (∀ access_token,
     resp !! "access_token" = Some access_token → outcome = inr access_token)
  ∧ (resp !! "access_token" = None →
     outcome = inl (OutOfProtocolError "access_token missing in OAuth response"))
  ∧ (resp = ∅ →
     outcome = inl (OutOfProtocolError "access_token missing in OAuth response")).
Proof.
  intros Hresp. unfold responds in Hresp. cbv zeta.
  rewrite trade_code_run. cbv zeta. cbn [snd]. rewrite Hresp.
  split; [| split].
  - by intros t ->.
  - by intros ->.
  - intros ->. by rewrite lookup_empty.
Qed.

(** A field of a query string that gives [code] no value: it has no
    [=], or nothing after it, or another name before it. *)
Lemma values_of_code_nil (qs : string) :
  (∀ f, f ∈ Str.split_on "&" qs →
        Str.cut "=" f = None
        ∨ (∃ n, Str.cut "=" f = Some (n, ""))
        ∨ (∃ n v, Str.cut "=" f = Some (n, v)
                  ∧ Url.unquote (Str.replace "+" " " n) ≠ "code")) →
  Url.values_of "code" (Url.parse_qsl qs) = [].
Proof.
  intros Hfields. apply values_of_nil. intros f v Hf.
  unfold Url.parse_field.
  destruct (Hfields f Hf) as [->|[[n ->]|(n & v' & -> & Hn)]]; [done | done |].
  destruct v'; [done |]. congruence.
Qed.

(** C5. Given the response to the assertion-for-code request,
    [authorize_code] raises [OutOfProtocolError] when it has no [redirect].
    For a redirect URL that [urlparse] accepts it returns the first value
    the query string gives to [code], and raises [OutOfProtocolError] with
    the message ["code missing in OAuth redirect url"] when every field of
    the query has no [=], nothing after its [=], or another name. For a
    redirect URL that [urlparse] refuses, the [ValueError] is the outcome:
    line 112 stands before the [try], so the [except] clause that names
    [ValueError] does not see it. *)
Theorem authorize_code_result w assertion scope cid resp :
  responds w "/v1/authorization" (code_body (this w) assertion scope cid) resp →
  let outcome := (authorize_code assertion scope cid w).2 in
  let missing := OutOfProtocolError "code missing in OAuth redirect url" in
  (resp !! "redirect" = None →
   outcome = inl (OutOfProtocolError "redirect missing in OAuth response"))
  ∧ (∀ url parsed,
       resp !! "redirect" = Some (VStr url) →
       Url.urlparse url = inr parsed →
       let qs := Url.query parsed in
       outcome = match Url.values_of "code" (Url.parse_qsl qs) with
                 | code :: _ => inr code
                 | [] => inl missing
                 end
       ∧ ((∀ f, f ∈ Str.split_on "&" qs →
                Str.cut "=" f = None
                ∨ (∃ n, Str.cut "=" f = Some (n, ""))
                ∨ (∃ n v, Str.cut "=" f = Some (n, v)
                          ∧ Url.unquote (Str.replace "+" " " n) ≠ "code")) →
          outcome = inl missing))
  ∧ (∀ url e,
       resp !! "redirect" = Some (VStr url) →
       Url.urlparse url = inl e →
       outcome = inl e)
  ∧ (resp = sample_redirect → outcome = inr "abc123")
  ∧ (resp = <["redirect" := VStr "https://x/?state=x"]> ∅ →
     outcome = inl missing)
  ∧ (resp = sample_redirect_blank → outcome = inl missing)
  ∧ (resp = sample_redirect_bare_name → outcome = inl missing)
  ∧ (resp = sample_redirect_invalid → outcome = inl (Raised "ValueError")).
Proof.
  intros Hresp. unfold responds in Hresp. cbv zeta.
  rewrite authorize_code_run. cbv zeta. cbn [snd]. rewrite Hresp.
  split; [| split; [| split; [| split; [| split; [| split; [| split]]]]]].
  - by intros ->.
  - intros url parsed -> Hparsed. cbn [Url.urlparse_value]. rewrite Hparsed.
    split; [done |]. intros Hnone. by rewrite values_of_code_nil.
  - intros url e -> Hparsed. cbn [Url.urlparse_value]. by rewrite Hparsed.
  - by intros ->.
  - by intros ->.
  - by intros ->.
  - by intros ->.
  - by intros ->.
Qed.


End Exchange.

Lemma trade_code_result_witness :
  let w := canned_world (Some "abc") (Some "cake") (inr sample_token) in
  responds w "/v1/token" (token_body (this w) "1234" None None) sample_token
  ∧ (trade_code "1234" None None w).2 = inr (VStr "yeah").
Proof.
  split; [reflexivity |].
  apply (trade_code_result
           (canned_world (Some "abc") (Some "cake") (inr sample_token))
           "1234" None None sample_token eq_refl).
  reflexivity.
Defined.

Lemma authorize_code_result_witness :
  let w := canned_world (Some "abc") None (inr sample_redirect_invalid) in
  responds w "/v1/authorization" (code_body (this w) "assertion" None None)
    sample_redirect_invalid
  ∧ (authorize_code (library := lenient) "assertion" None None w).2
    = inl (Raised "ValueError").
Proof.
  split; [reflexivity |].
  apply (authorize_code_result (library := lenient)
           (canned_world (Some "abc") None (inr sample_redirect_invalid))
           "assertion" None None sample_redirect_invalid eq_refl).
  reflexivity.
Defined.

(** The run of the specification: the code is read from the query. *)
Example authorize_code_sample :
  (authorize_code (library := lenient) "assertion" None None
     (canned_world (Some "abc") None (inr sample_redirect))).2
  = inr "abc123".
Proof. reflexivity. Qed.



(** ** URLs *)

Section UrlFacts.

Lemma mem_cons (c d : ascii) (s : string) :
  Str.mem c (String d s) = Ascii.eqb d c || Str.mem c s.
Proof. reflexivity. Qed.

Lemma mem_app (c : ascii) (a b : string) :
  Str.mem c (a +:+ b) = Str.mem c a || Str.mem c b.
Proof.
  induction a as [|x a IH]; [done |].
  rewrite append_cons. simpl. by rewrite IH, orb_assoc.
Qed.

Lemma cut_none (c : ascii) (s : string) :
  Str.mem c s = false ↔ Str.cut c s = None.
Proof.
  induction s as [|x s IH]; simpl; [done |].
  destruct (Ascii.eqb x c); simpl; [done |].
  rewrite IH. by destruct (Str.cut c s) as [[a b]|].
Qed.

Lemma cut_app (c : ascii) (a b : string) :
  Str.mem c a = false → Str.cut c (a +:+ String c b) = Some (a, b).
Proof.
  induction a as [|x a IH]; intros Ha.
  - rewrite append_nil_l. simpl. by rewrite Ascii.eqb_refl.
  - rewrite append_cons. simpl in *.
    apply orb_false_elim in Ha as [-> Ha]. by rewrite IH.
Qed.

Lemma cut_split (c : ascii) (s a b : string) :
  Str.cut c s = Some (a, b) → s = a +:+ String c b ∧ Str.mem c a = false.
Proof.
  revert a b. induction s as [|x s IH]; intros a b; simpl; [done |].
  destruct (Ascii.eqb_spec x c) as [->|Hne].
  - by intros [= <- <-].
  - destruct (Str.cut c s) as [[a' b']|]; [| done].
    intros [= <- <-]. destruct (IH a' b' eq_refl) as [-> Ha'].
    split; [done |]. simpl.
    by rewrite (proj2 (Ascii.eqb_neq x c) Hne).
Qed.

(** *** The parts of a parsed URL *)

Lemma lstrip_blank_mem (c : ascii) (s : string) :
  Str.mem c s = false → Str.mem c (Url.lstrip_blank s) = false.
Proof.
  induction s as [|x s IH]; [done |]. cbn [Url.lstrip_blank].
  destruct (Nat.leb (nat_of_ascii x) 32); [| done].
  rewrite mem_cons. intros [_ Hs]%orb_false_elim. by apply IH.
Qed.

Lemma remove_unsafe_mem (c : ascii) (s : string) :
  Str.mem c s = false → Str.mem c (Url.remove_unsafe s) = false.
Proof.
  induction s as [|x s IH]; [done |]. cbn [Url.remove_unsafe].
  rewrite mem_cons. intros [Hx Hs]%orb_false_elim.
  destruct (Url.is_unsafe x); [by apply IH |].
  by rewrite mem_cons, Hx, IH.
Qed.

Lemma split_first_fst (sep : ascii) (s : string) :
  Str.mem sep (Url.split_first sep s).1 = false.
Proof.
  unfold Url.split_first. destruct (Str.cut sep s) as [[a b]|] eqn:Hcut.
  - by apply cut_split in Hcut as [_ Ha].
  - by apply cut_none.
Qed.

Lemma split_first_mem (c sep : ascii) (s : string) :
  Str.mem c s = false →
  Str.mem c (Url.split_first sep s).1 = false
  ∧ Str.mem c (Url.split_first sep s).2 = false.
Proof.
  unfold Url.split_first. destruct (Str.cut sep s) as [[a b]|] eqn:Hcut;
    [| done].
  apply cut_split in Hcut as [-> _]. rewrite mem_app, mem_cons.
  intros [Ha [_ Hb]%orb_false_elim]%orb_false_elim. done.
Qed.

Lemma span_netloc_app (s : string) :
  s = (Url.span_netloc s).1 +:+ (Url.span_netloc s).2.
Proof.
  induction s as [|x s IH]; [done |]. cbn [Url.span_netloc].
  destruct (Str.mem x "/?#"); [done |].
  destruct (Url.span_netloc s) as [host rest]. cbn [fst snd] in *.
  by rewrite append_cons, <- IH.
Qed.

Lemma span_netloc_host (c : ascii) (s : string) :
  Str.mem c "/?#" = true → Str.mem c (Url.span_netloc s).1 = false.
Proof.
  intros Hc. induction s as [|x s IH]; [done |]. cbn [Url.span_netloc].
  destruct (Str.mem x "/?#") eqn:Hx; [done |].
  destruct (Url.span_netloc s) as [host rest]. cbn [fst snd] in *.
  rewrite mem_cons, IH, orb_false_r.
  destruct (Ascii.eqb_spec x c) as [->|]; [congruence | done].
Qed.

Lemma split_netloc_host (c : ascii) (s : string) :
  Str.mem c "/?#" = true → Str.mem c (Url.split_netloc s).1 = false.
Proof.
  intros Hc. unfold Url.split_netloc.
  destruct s as [|c1 [|c2 rest]]; try done.
  destruct (Ascii.eqb c1 "/" && Ascii.eqb c2 "/"); [| done].
  by apply span_netloc_host.
Qed.

Lemma split_netloc_rest (c : ascii) (s : string) :
  Str.mem c s = false → Str.mem c (Url.split_netloc s).2 = false.
Proof.
  unfold Url.split_netloc.
  destruct s as [|c1 [|c2 rest]]; try done.
  destruct (Ascii.eqb c1 "/" && Ascii.eqb c2 "/"); [| done].
  rewrite !mem_cons. intros [_ [_ Hrest]%orb_false_elim]%orb_false_elim.
  rewrite (span_netloc_app rest), mem_app in Hrest.
  by apply orb_false_elim in Hrest as [_ ?].
Qed.

Lemma lower_scheme_chars (c : ascii) (a : string) :
  c = "?"%char ∨ c = "#"%char →
  Url.all_chars Url.is_scheme_char a = true →
  Str.mem c (Url.lower a) = false.
Proof.
  intros Hc. induction a as [|x a IH]; [done |].
  cbn [Url.all_chars Url.lower]. intros [Hx Ha]%andb_prop.
  rewrite mem_cons, (IH Ha), orb_false_r.
  apply Ascii.eqb_neq. intros Heq. revert Hx Heq. clear -Hc.
  destruct Hc as [-> | ->];
    destruct x as [[] [] [] [] [] [] [] []]; vm_compute; congruence.
Qed.

Lemma split_scheme_chars (c : ascii) (s : string) :
  c = "?"%char ∨ c = "#"%char → Str.mem c (Url.split_scheme s).1 = false.
Proof.
  intros Hc. unfold Url.split_scheme.
  destruct (Str.cut ":" s) as [[[|x before] after]|]; try done.
  destruct (Url.is_alpha x && Url.all_chars Url.is_scheme_char (String x before))
    eqn:Hscheme; [| done].
  apply andb_prop in Hscheme as [_ Hall]. by apply lower_scheme_chars.
Qed.

Lemma split_scheme_rest (c : ascii) (s : string) :
  Str.mem c s = false → Str.mem c (Url.split_scheme s).2 = false.
Proof.
  intros Hs. unfold Url.split_scheme.
  destruct (Str.cut ":" s) as [[[|x before] after]|] eqn:Hcut; try done.
  destruct (Url.is_alpha x && Url.all_chars Url.is_scheme_char (String x before));
    [| done].
  apply cut_split in Hcut as [-> _]. rewrite mem_app, mem_cons in Hs.
  by apply orb_false_elim in Hs as [_ [_ ?]%orb_false_elim].
Qed.

Lemma rcut_split (sep : ascii) (s a b : string) :
  Url.rcut sep s = Some (a, b) → s = a +:+ String sep b.
Proof.
  revert a b. induction s as [|x s IH]; intros a b; [done |].
  cbn [Url.rcut]. destruct (Url.rcut sep s) as [[a' b']|].
  - intros [= <- <-]. by rewrite (IH a' b' eq_refl) at 1.
  - destruct (Ascii.eqb_spec x sep) as [->|]; [| done]. by intros [= <- <-].
Qed.

Lemma splitparams_mem (c : ascii) (url : string) :
  Str.mem c url = false →
  Str.mem c (Url.splitparams url).1 = false
  ∧ Str.mem c (Url.splitparams url).2 = false.
Proof.
  intros Hurl. unfold Url.splitparams.
  destruct (Url.rcut "/" url) as [[dir last]|] eqn:Hdir;
    [| by apply split_first_mem].
  apply rcut_split in Hdir as ->.
  rewrite mem_app, mem_cons in Hurl.
  apply orb_false_elim in Hurl as [Hdir [Hslash Hlast]%orb_false_elim].
  destruct (Str.cut ";" last) as [[name params]|] eqn:Hcut; cbn [fst snd].
  - apply cut_split in Hcut as [-> _]. rewrite mem_app, mem_cons in Hlast.
    apply orb_false_elim in Hlast as [Hname [_ Hparams]%orb_false_elim].
    split; [| done].
    by rewrite !mem_app, Hdir, mem_cons, Hslash, Hname.
  - split; [| done]. by rewrite mem_app, mem_cons, Hdir, Hslash, Hlast.
Qed.

(** No part that [urlparse] puts before the query holds a [?] or a [#]. *)
Lemma urlparse_parts {library : NetlocCheck} (url : string) (r : Url.ParseResult)
    (c : ascii) :
  Url.urlparse url = inr r →
  c = "?"%char ∨ c = "#"%char →
  Str.mem c (Url.scheme r) = false ∧ Str.mem c (Url.netloc r) = false
  ∧ Str.mem c (Url.path r) = false ∧ Str.mem c (Url.params r) = false.
Proof.
  intros Hparse Hc. unfold Url.urlparse, Url.urlsplit in Hparse.
  set (cleaned := Url.remove_unsafe (Url.lstrip_blank url)) in Hparse.
  pose proof (split_scheme_chars c cleaned Hc) as Hscheme.
  destruct (Url.split_scheme cleaned) as [sch u0]. cbn [fst] in Hscheme.
  assert (Hdelim : Str.mem c "/?#" = true) by by destruct Hc as [-> | ->].
  pose proof (split_netloc_host c u0 Hdelim) as Hnetloc.
  destruct (Url.split_netloc u0) as [net u1]. cbn [fst] in Hnetloc.
  destruct (Url.netloc_accepted net); [| done].
  assert (Hpath : Str.mem c (Url.split_first "?" (Url.split_first "#" u1).1).1
                  = false).
  { destruct Hc as [-> | ->]; [apply split_first_fst |].
    apply split_first_mem, split_first_fst. }
  destruct (Url.split_first "#" u1) as [u2 frag]. cbn [fst] in Hpath.
  destruct (Url.split_first "?" u2) as [u3 qs]. cbn [fst] in Hpath.
  cbn [Url.split_scheme_of Url.split_netloc_of Url.split_path
       Url.split_query Url.split_fragment_of] in Hparse.
  destruct (Url.uses_params sch && Str.mem ";" u3).
  - pose proof (splitparams_mem c u3 Hpath) as [Hp1 Hp2].
    destruct (Url.splitparams u3) as [p1 p2]. by injection Hparse as <-.
  - by injection Hparse as <-.
Qed.

Lemma rooted_clean (c : ascii) (sch net url : string) (b : bool) :
  Str.mem c sch = false → Str.mem c net = false → Str.mem c url = false →
  Ascii.eqb ":" c = false → Ascii.eqb "/" c = false →
  Str.mem c
    match sch with
    | EmptyString =>
        if b
        then "//" +:+ net +:+
             match url with
             | EmptyString => ""
             | String x _ => if Ascii.eqb x "/" then url else "/" +:+ url
             end
        else url
    | String a s =>
        String a s +:+ ":" +:+
        (if b
         then "//" +:+ net +:+
              match url with
              | EmptyString => ""
              | String x _ => if Ascii.eqb x "/" then url else "/" +:+ url
              end
         else url)
    end = false.
Proof.
  intros Hsch Hnet Hurl Hcolon Hslash.
  assert (Hrooted : Str.mem c
    (if b
     then "//" +:+ net +:+
          match url with
          | EmptyString => ""
          | String x _ => if Ascii.eqb x "/" then url else "/" +:+ url
          end
     else url) = false).
  { destruct b; [| done]. rewrite !mem_app, !mem_cons, Hslash, Hnet.
    destruct url as [|x url]; [done |].
    destruct (Ascii.eqb x "/"); [done |].
    by rewrite mem_app, mem_cons, Hslash, Hurl. }
  destruct sch as [|a sch]; [done |].
  by rewrite !mem_app, Hsch, mem_cons, Hcolon, Hrooted.
Qed.

Lemma front_clean (r : Url.ParseResult) (c : ascii) :
  Str.mem c (Url.scheme r) = false → Str.mem c (Url.netloc r) = false →
  Str.mem c (Url.path r) = false → Str.mem c (Url.params r) = false →
  Str.mem c ":/;" = false →
  Str.mem c (Url.front r) = false.
Proof.
  intros Hscheme Hnetloc Hpath Hparams Hdelims.
  rewrite !mem_cons in Hdelims.
  apply orb_false_elim in Hdelims as [Hcolon Hdelims].
  apply orb_false_elim in Hdelims as [Hslash Hdelims].
  apply orb_false_elim in Hdelims as [Hsemi _].
  unfold Url.front. cbv zeta.
  destruct (Url.params r) as [|p ps] eqn:Hp.
  - by apply rooted_clean.
  - apply rooted_clean; try done.
    by rewrite !mem_app, Hpath, mem_cons, Hsemi, Hparams.
Qed.

Lemma urlparse_front {library : NetlocCheck} (url : string)
    (r : Url.ParseResult) :
  Url.urlparse url = inr r →
  Str.mem "?" (Url.front r) = false ∧ Str.mem "#" (Url.front r) = false.
Proof.
  intros Hparse. split.
  - destruct (urlparse_parts url r "?" Hparse) as (? & ? & ? & ?); [by left |].
    by apply front_clean.
  - destruct (urlparse_parts url r "#" Hparse) as (? & ? & ? & ?); [by right |].
    by apply front_clean.
Qed.

(** The URL that [urlunparse] writes when a query is put in. *)
Lemma urlunparse_query (r : Url.ParseResult) (q : string) :
  q ≠ "" →
  Url.urlunparse (Url.replace_query r q)
  = Url.front r +:+ "?" +:+ q +:+
    match Url.fragment r with
    | EmptyString => ""
    | f => "#" +:+ f
    end.
Proof.
  intros Hq. unfold Url.urlunparse.
  change (Url.front (Url.replace_query r q)) with (Url.front r).
  cbn [Url.replace_query Url.query Url.fragment].
  destruct q as [|x q]; [done |].
  destruct (Url.fragment r).
  - by rewrite append_empty_r.
  - by rewrite !append_assoc.
Qed.

(** A URL without [?] has an empty query. *)
Lemma urlparse_no_query {library : NetlocCheck} (url : string)
    (r : Url.ParseResult) :
  Url.urlparse url = inr r → Str.mem "?" url = false → Url.query r = "".
Proof.
  intros Hparse Hurl. unfold Url.urlparse, Url.urlsplit in Hparse.
  apply (lstrip_blank_mem "?"), (remove_unsafe_mem "?") in Hurl.
  set (cleaned := Url.remove_unsafe (Url.lstrip_blank url)) in *.
  apply split_scheme_rest in Hurl.
  destruct (Url.split_scheme cleaned) as [sch u0]. cbn [snd] in Hurl.
  apply split_netloc_rest in Hurl.
  destruct (Url.split_netloc u0) as [net u1]. cbn [snd] in Hurl.
  destruct (Url.netloc_accepted net); [| done].
  apply (split_first_mem "?" "#") in Hurl as [Hurl _].
  destruct (Url.split_first "#" u1) as [u2 frag]. cbn [fst] in Hurl.
  unfold Url.split_first in Hparse at 1.
  rewrite (proj1 (cut_none _ _) Hurl) in Hparse.
  cbn [Url.split_scheme_of Url.split_netloc_of Url.split_path
       Url.split_query Url.split_fragment_of] in Hparse.
  destruct (Url.uses_params sch && Str.mem ";" u2).
  - destruct (Url.splitparams u2). by injection Hparse as <-.
  - by injection Hparse as <-.
Qed.

(** *** The characters of an encoded query *)

Lemma hex_digit_safe (n : nat) :
  n < 16 → Url.always_safe (Url.hex_digit n) = true.
Proof.
  intros Hn. do 16 (destruct n as [|n]; [reflexivity |]). lia.
Qed.

Lemma escape_chars (x c : ascii) :
  Str.mem c (Url.escape x) = true → c = "%"%char ∨ Url.always_safe c = true.
Proof.
  unfold Url.escape. cbv zeta.
  pose proof (nat_ascii_bounded x) as Hx.
  assert (H1 : nat_of_ascii x / 16 < 16)
    by (apply Nat.Div0.div_lt_upper_bound; lia).
  assert (H2 : nat_of_ascii x mod 16 < 16) by (apply Nat.mod_upper_bound; lia).
  apply hex_digit_safe in H1, H2.
  generalize dependent (Url.hex_digit (nat_of_ascii x / 16)).
  generalize dependent (Url.hex_digit (nat_of_ascii x mod 16)).
  intros lo Hlo hi Hhi.
  rewrite !mem_cons, !orb_true_iff, !Ascii.eqb_eq.
  intros [<-|[<-|[<-|H]]]; auto. discriminate H.
Qed.

Lemma mem_single (c d : ascii) : Str.mem c (String d "") = true ↔ d = c.
Proof. rewrite mem_cons, orb_false_r. apply Ascii.eqb_eq. Qed.

Lemma quote_chars (safe s : string) (c : ascii) :
  Str.mem c (Url.quote safe s) = true →
  c = "%"%char ∨ Url.always_safe c = true ∨ Str.mem c safe = true.
Proof.
  induction s as [|x s IH]; simpl; [done |].
  rewrite mem_app, orb_true_iff. intros [Hx|Hs]; [| by apply IH].
  destruct (Url.always_safe x || Str.mem x safe) eqn:Hsafe.
  - apply mem_single in Hx as <-. apply orb_true_iff in Hsafe. tauto.
  - apply escape_chars in Hx. tauto.
Qed.

Lemma replace_chars (a b : ascii) (s : string) (c : ascii) :
  Str.mem c (Str.replace a b s) = true →
  c = b ∨ (c ≠ a ∧ Str.mem c s = true).
Proof.
  induction s as [|x s IH]; [done |].
  cbn [Str.replace]. rewrite !mem_cons, orb_true_iff. intros [Hx|Hs].
  - apply Ascii.eqb_eq in Hx. destruct (Ascii.eqb_spec x a) as [->|Hne].
    + by left.
    + right. subst c. by rewrite Ascii.eqb_refl.
  - destruct (IH Hs) as [->|[Hne Hmem]]; [by left | right].
    by rewrite Hmem, orb_true_r.
Qed.

Lemma quote_plus_chars (s : string) (c : ascii) :
  Str.mem c (Url.quote_plus s) = true →
  Url.always_safe c || Str.mem c "%+" = true.
Proof.
  unfold Url.quote_plus. destruct (Str.mem " " s).
  - intros [->|[Hne H]]%replace_chars; [done |].
    apply quote_chars in H as [->|[->|H]]; [done | done |].
    apply mem_single in H. congruence.
  - intros [->|[->|H]]%quote_chars; done.
Qed.

Lemma urlencode_chars (params : list (string * option string)) (c : ascii) :
  Str.mem c (Url.urlencode params) = true →
  Url.always_safe c || Str.mem c "%+=&" = true.
Proof.
  unfold Url.urlencode.
  assert (Hquoted : ∀ s, Str.mem c (Url.quote_plus s) = true →
                         Url.always_safe c || Str.mem c "%+=&" = true).
  { intros s H%quote_plus_chars. rewrite !mem_cons in *.
    by destruct (Url.always_safe c), (Ascii.eqb "%" c), (Ascii.eqb "+" c). }
  assert (Hitem : ∀ kv : string * option string,
    Str.mem c (Url.quote_plus kv.1 +:+ "=" +:+ Url.quote_plus (Url.py_str kv.2))
    = true → Url.always_safe c || Str.mem c "%+=&" = true).
  { intros kv H. rewrite !mem_app, !orb_true_iff in H.
    destruct H as [H|[H|H]]; [by eapply Hquoted | | by eapply Hquoted].
    by apply mem_single in H as <-. }
  induction params as [|kv params IH]; [done |].
  destruct params as [|kv' params]; [exact (Hitem kv) |].
  rewrite map_cons, join_cons by done. intros H.
  rewrite mem_app, orb_true_iff in H. destruct H as [H|H]; [exact (Hitem kv H) |].
  rewrite mem_app, orb_true_iff in H. destruct H as [H|H]; [| by apply IH].
  by apply mem_single in H as <-.
Qed.

Lemma urlencode_no_hash (params : list (string * option string)) :
  Str.mem "#" (Url.urlencode params) = false.
Proof.
  destruct (Str.mem "#" (Url.urlencode params)) eqn:H; [| done].
  by apply urlencode_chars in H.
Qed.

Lemma urlencode_no_question (params : list (string * option string)) :
  Str.mem "?" (Url.urlencode params) = false.
Proof.
  destruct (Str.mem "?" (Url.urlencode params)) eqn:H; [| done].
  by apply urlencode_chars in H.
Qed.

Lemma urlencode_nonempty (params : list (string * option string)) :
  params ≠ [] → Url.urlencode params ≠ "".
Proof.
  destruct params as [|kv params]; [done |]. intros _ Hempty.
  assert (H : Str.mem "=" (Url.urlencode (kv :: params)) = true);
    [| by rewrite Hempty in H].
  unfold Url.urlencode. rewrite map_cons.
  destruct params as [|kv' params].
  - simpl Str.join. rewrite !mem_app. simpl. by rewrite orb_true_r.
  - rewrite join_cons by done. rewrite !mem_app. simpl. by rewrite orb_true_r.
Qed.

(** *** Reading an encoded query back *)

Lemma hex_value_digit (n : nat) :
  n < 16 → Url.hex_value (Url.hex_digit n) = Some n.
Proof.
  intros Hn. do 16 (destruct n as [|n]; [reflexivity |]). lia.
Qed.

Lemma unquote_percent (h l : ascii) (a b : nat) (rest : string) :
  Url.hex_value h = Some a → Url.hex_value l = Some b →
  Url.unquote_to_bytes (String "%" (String h (String l rest)))
  = String (ascii_of_nat (16 * a + b)) (Url.unquote_to_bytes rest).
Proof.
  intros Ha Hb.
  change (Url.unquote_to_bytes (String "%" (String h (String l rest))))
    with (match Url.hex_value h, Url.hex_value l with
          | Some a, Some b =>
              String (ascii_of_nat (16 * a + b)) (Url.unquote_to_bytes rest)
          | _, _ => String "%" (Url.unquote_to_bytes (String h (String l rest)))
          end).
  by rewrite Ha, Hb.
Qed.

Lemma unquote_plain (x : ascii) (rest : string) :
  x ≠ "%"%char → Url.unquote_to_bytes (String x rest) = String x (Url.unquote_to_bytes rest).
Proof.
  intros Hx. cbn [Url.unquote_to_bytes].
  by rewrite (proj2 (Ascii.eqb_neq x "%") Hx).
Qed.

Lemma unquote_escape (x : ascii) (rest : string) :
  Url.unquote_to_bytes (Url.escape x +:+ rest) = String x (Url.unquote_to_bytes rest).
Proof.
  unfold Url.escape. cbv zeta. rewrite !append_cons, append_nil_l.
  pose proof (nat_ascii_bounded x) as Hx.
  rewrite (unquote_percent _ _ (nat_of_ascii x / 16) (nat_of_ascii x mod 16)).
  - by rewrite <- Nat.div_mod_eq, ascii_nat_embedding.
  - apply hex_value_digit, Nat.Div0.div_lt_upper_bound. lia.
  - apply hex_value_digit, Nat.mod_upper_bound. lia.
Qed.

Lemma unquote_quote (safe s : string) :
  Str.mem "%" safe = false → Url.unquote_to_bytes (Url.quote safe s) = s.
Proof.
  intros Hsafe. induction s as [|x s IH]; [done |]. cbn [Url.quote].
  destruct (Url.always_safe x || Str.mem x safe) eqn:Hx.
  - rewrite append_cons, append_nil_l, unquote_plain, IH; [done |].
    intros ->. by rewrite Hsafe in Hx.
  - by rewrite unquote_escape, IH.
Qed.

Lemma replace_replace (a b : ascii) (s : string) :
  Str.mem b s = false → Str.replace b a (Str.replace a b s) = s.
Proof.
  induction s as [|x s IH]; [done |].
  rewrite mem_cons. intros [Hx Hs]%orb_false_elim.
  cbn [Str.replace]. rewrite IH by done. f_equal.
  destruct (Ascii.eqb_spec x a) as [->|Hne].
  - by rewrite Ascii.eqb_refl.
  - by rewrite Hx.
Qed.

Lemma replace_absent (a b : ascii) (s : string) :
  Str.mem a s = false → Str.replace a b s = s.
Proof.
  induction s as [|x s IH]; [done |].
  rewrite mem_cons. intros [Hx Hs]%orb_false_elim.
  cbn [Str.replace]. by rewrite IH, Hx.
Qed.

Lemma quote_no_plus (safe s : string) :
  Str.mem "+" safe = false → Str.mem "+" (Url.quote safe s) = false.
Proof.
  intros Hsafe. destruct (Str.mem "+" (Url.quote safe s)) eqn:H; [| done].
  apply quote_chars in H as [H|[H|H]]; [done | done | congruence].
Qed.

(** What [parse_qsl] does to a name or a value undoes [quote_plus]. *)
Lemma unquote_bytes_quote_plus (s : string) :
  Url.unquote_to_bytes (Str.replace "+" " " (Url.quote_plus s)) = s.
Proof.
  unfold Url.quote_plus. destruct (Str.mem " " s).
  - rewrite replace_replace by by apply quote_no_plus.
    by apply unquote_quote.
  - rewrite replace_absent by by apply quote_no_plus.
    by apply unquote_quote.
Qed.

Lemma quote_plus_blank (s : string) : Url.quote_plus s = "" → s = "".
Proof.
  intros H. by rewrite <- (unquote_bytes_quote_plus s), H.
Qed.

Lemma unquote_to_bytes_plain (s : string) :
  Str.mem "%" s = false → Url.unquote_to_bytes s = s.
Proof.
  induction s as [|x s IH]; [done |].
  rewrite mem_cons. intros [Hx Hs]%orb_false_elim.
  rewrite unquote_plain, IH; [done | done |].
  intros ->. by rewrite Ascii.eqb_refl in Hx.
Qed.

Lemma all_chars_mem (p : ascii → bool) (s : string) :
  (∀ c, Str.mem c s = true → p c = true) → Url.all_chars p s = true.
Proof.
  induction s as [|x s IH]; [done |]. intros Hall. cbn [Url.all_chars].
  rewrite (Hall x), IH; [done | |].
  - intros c Hc. apply Hall. by rewrite mem_cons, Hc, orb_true_r.
  - by rewrite mem_cons, Ascii.eqb_refl.
Qed.

Lemma unquote_runs_ascii (run s : string) :
  Url.all_chars Url.is_ascii s = true →
  Url.unquote_runs run s = Url.decode_run (run +:+ s).
Proof.
  revert run. induction s as [|x s IH]; intros run.
  - by rewrite append_empty_r.
  - cbn [Url.all_chars Url.unquote_runs]. intros [-> Hs]%andb_prop.
    rewrite IH by done. by rewrite append_assoc.
Qed.

(** An encoded text is ASCII, also with its [+] turned into spaces. *)
Lemma quote_plus_ascii (s : string) :
  Url.all_chars Url.is_ascii (Str.replace "+" " " (Url.quote_plus s)) = true.
Proof.
  apply all_chars_mem. intros c [->|[_ Hc]]%replace_chars; [done |].
  apply quote_plus_chars in Hc. revert Hc. clear.
  rewrite !mem_cons.
  destruct c as [[] [] [] [] [] [] [] []]; vm_compute; congruence.
Qed.

(** What [parse_qsl] does to a name or a value undoes [quote_plus], for a
    text that is well-formed UTF-8 (decoding leaves it as it is). *)
Lemma unquote_quote_plus (s : string) :
  Url.utf8_replace s = s →
  Url.unquote (Str.replace "+" " " (Url.quote_plus s)) = s.
Proof.
  intros Hs. unfold Url.unquote.
  destruct (Str.mem "%" _) eqn:Hpercent.
  - rewrite unquote_runs_ascii by apply quote_plus_ascii.
    unfold Url.decode_run. by rewrite append_nil_l, unquote_bytes_quote_plus.
  - by rewrite <- (unquote_to_bytes_plain _ Hpercent), unquote_bytes_quote_plus.
Qed.

Lemma cut_quoted (k v : string) :
  Str.cut "=" (Url.quote_plus k +:+ "=" +:+ Url.quote_plus v)
  = Some (Url.quote_plus k, Url.quote_plus v).
Proof.
  change ("=" +:+ Url.quote_plus v) with (String "=" (Url.quote_plus v)).
  apply cut_app.
  destruct (Str.mem "=" (Url.quote_plus k)) eqn:H; [| done].
  by apply quote_plus_chars in H.
Qed.

Lemma parse_field_quoted (k v : string) :
  Url.utf8_replace k = k → Url.utf8_replace v = v →
  Url.parse_field (Url.quote_plus k +:+ "=" +:+ Url.quote_plus v)
  = match v with
    | EmptyString => None
    | _ => Some (k, v)
    end.
Proof.
  intros Hk Hv. unfold Url.parse_field. rewrite cut_quoted.
  destruct (Url.quote_plus v) eqn:Hq.
  - by rewrite (quote_plus_blank v Hq).
  - rewrite <- Hq, !unquote_quote_plus by done.
    destruct v; [discriminate Hq | done].
Qed.

Lemma split_on_absent (sep : ascii) (s : string) :
  Str.mem sep s = false → Str.split_on sep s = [s].
Proof.
  induction s as [|x s IH]; [done |].
  rewrite mem_cons. intros [Hx Hs]%orb_false_elim.
  cbn [Str.split_on]. by rewrite Hx, IH.
Qed.

Lemma split_on_join (sep : ascii) (items : list string) :
  items ≠ [] → Forall (λ x, Str.mem sep x = false) items →
  Str.split_on sep (Str.join (String sep "") items) = items.
Proof.
  intros Hne Hall. induction Hall as [|x items Hx Hall IH]; [done |].
  destruct items as [|y items]; [by apply split_on_absent |].
  rewrite join_cons by done.
  change (String sep "" +:+ Str.join (String sep "") (y :: items))
    with (String sep (Str.join (String sep "") (y :: items))).
  rewrite split_on_app, IH by done. by rewrite split_on_absent.
Qed.

Lemma urlencode_split (params : list (string * option string)) :
  params ≠ [] →
  Str.split_on "&" (Url.urlencode params)
  = map (λ kv, Url.quote_plus kv.1 +:+ "=" +:+
               Url.quote_plus (Url.py_str kv.2)) params.
Proof.
  intros Hne. unfold Url.urlencode. apply split_on_join.
  - by destruct params.
  - apply Forall_forall. intros x (kv' & -> & _)%list_elem_of_fmap.
    rewrite !mem_app.
    destruct (Str.mem "&" (Url.quote_plus kv'.1)) eqn:H1;
      [by apply quote_plus_chars in H1 |].
    destruct (Str.mem "&" (Url.quote_plus (Url.py_str kv'.2))) eqn:H2;
      [by apply quote_plus_chars in H2 |].
    done.
Qed.

(** Cut at [&] and at the first [=] of each field, and with the escapes
    turned into bytes, an encoded query is the items it was made of. *)
Lemma urlencode_fields (params : list (string * option string)) :
  params ≠ [] →
  map (λ f, (λ nv, (Url.unquote_to_bytes (Str.replace "+" " " nv.1),
                    Url.unquote_to_bytes (Str.replace "+" " " nv.2)))
            <$> Str.cut "=" f)
      (Str.split_on "&" (Url.urlencode params))
  = map (λ kv, Some (kv.1, Url.py_str kv.2)) params.
Proof.
  intros Hne. rewrite urlencode_split by done. clear Hne.
  induction params as [|[k v] params IH]; [done |].
  rewrite !map_cons, IH. cbn [fst snd]. rewrite cut_quoted.
  cbn [fmap option_fmap option_map fst snd].
  by rewrite !unquote_bytes_quote_plus.
Qed.

End UrlFacts.

(** ** The redirect URL *)

Section RedirectUrl.

Context {N : Type} {library : NetlocCheck}.
Implicit Types (w : world N) (self : Client N).

(** [params] holds [client_id] and [state], then the optional arguments
    that were given, in the order of the [if] statements. *)
Lemma redirect_params_given self state redirect_uri scope action email cid :
  redirect_params self state redirect_uri scope action email cid =
  [("client_id", match cid with
                 | None => client_id self
                 | Some _ => cid
                 end);
   ("state", state)]
  ++ filter (λ kv, is_Some kv.2)
       [("redirect_uri", redirect_uri); ("scope", scope);
        ("action", action); ("email", email)].
Proof. by destruct redirect_uri, scope, action, email. Qed.

Lemma get_redirect_url_run w state redirect_uri scope action email cid :
  get_redirect_url state redirect_uri scope action email cid w =
  (w, match Url.urlparse (client_server_url (this w) +:+ "/v1/authorization")
      with
      | inl e => inl e
      | inr parsed =>
          inr (Url.urlunparse
                 (Url.replace_query parsed
                    (Url.urlencode
                       (redirect_params (this w) (default (Some "") state)
                          redirect_uri scope action email cid))))
      end).
Proof.
  unfold get_redirect_url. run_method. unfold lift.
  by destruct (Url.urlparse _).
Qed.

(** C6, as the code has it. When [urlparse] accepts the configured server
    URL followed by [/v1/authorization], [get_redirect_url] hands no
    request to the transport and leaves the world as it was, and it returns
    what [urlunparse] writes before a query, a [?], the query string, and
    the fragment of the server URL if there is one. Neither the text before
    the [?] nor the query string has a [?] or a [#] in it. The query string
    is the [&]-joined [name=value] fields, each part written by
    [quote_plus], of [client_id], [state] and those of [redirect_uri],
    [scope], [action], [email] that are not [None], in this order and
    nothing else; taking the escapes of the fields back gives these names
    and values. [client_id] is the configured one when the argument is
    [None], and [state] is the empty string when the argument is left
    out. *)
Theorem get_redirect_url_spec
    w state redirect_uri scope action email cid parsed :
  Url.urlparse (client_server_url (this w) +:+ "/v1/authorization")
  = inr parsed →
  let run := get_redirect_url state redirect_uri scope action email cid w in
  let given :=
    [("client_id", match cid with
                   | None => client_id (this w)
                   | Some _ => cid
                   end);
     ("state", match state with
               | None => Some ""
               | Some passed => passed
               end)]
    ++ filter (λ kv, is_Some kv.2)
         [("redirect_uri", redirect_uri); ("scope", scope);
          ("action", action); ("email", email)] in
  let query_str := Url.urlencode given in
  run.1 = w
  ∧ run.2 = inr (Url.front parsed +:+ "?" +:+ query_str +:+
                 match Url.fragment parsed with
                 | EmptyString => ""
                 | f => "#" +:+ f
                 end)
  ∧ Str.mem "?" (Url.front parsed) = false
  ∧ Str.mem "#" (Url.front parsed) = false
  ∧ Str.mem "?" query_str = false
  ∧ Str.mem "#" query_str = false
  ∧ Str.split_on "&" query_str
    = map (λ kv, Url.quote_plus kv.1 +:+ "=" +:+
                 Url.quote_plus (default "None" kv.2)) given
  ∧ map (λ f, (λ nv, (Url.unquote_to_bytes (Str.replace "+" " " nv.1),
                      Url.unquote_to_bytes (Str.replace "+" " " nv.2)))
              <$> Str.cut "=" f)
        (Str.split_on "&" query_str)
    = map (λ kv, Some (kv.1, default "None" kv.2)) given.
Proof.
  intros Hparsed. cbv zeta. rewrite get_redirect_url_run, Hparsed.
  rewrite redirect_params_given. cbn [fst snd].
  destruct (urlparse_front _ _ Hparsed) as [Hq Hf].
  assert (Hstate : default (Some "") state
                   = match state with
                     | None => Some ""
                     | Some passed => passed
                     end) by by destruct state.
  rewrite Hstate.
  split; [done |]. split; [by rewrite urlunparse_query by by apply urlencode_nonempty |].
  split; [done |]. split; [done |].
  split; [apply urlencode_no_question |]. split; [apply urlencode_no_hash |].
  split; [by apply urlencode_split | by apply urlencode_fields].
Qed.

End RedirectUrl.

Lemma get_redirect_url_spec_witness :
  let w := canned_world (Some "abc") None (inr ∅) in
  Url.urlparse (library := lenient)
    (client_server_url (this w) +:+ "/v1/authorization")
  = inr {| Url.scheme := "https"; Url.netloc := "oauth.accounts.firefox.com";
           Url.path := "/v1/authorization"; Url.params := "";
           Url.query := ""; Url.fragment := "" |}
  ∧ (get_redirect_url (library := lenient) None None (Some "profile") None
       None None w).2
    = inr ("https://oauth.accounts.firefox.com/v1/authorization"
           +:+ "?client_id=abc&state=&scope=profile").
Proof.
  split; [reflexivity |].
  apply (get_redirect_url_spec (library := lenient)
           (canned_world (Some "abc") None (inr ∅))
           None None (Some "profile") None None None
           {| Url.scheme := "https"; Url.netloc := "oauth.accounts.firefox.com";
              Url.path := "/v1/authorization"; Url.params := "";
              Url.query := ""; Url.fragment := "" |} eq_refl).
Defined.

(** C6 as stated fails: with a server URL that [urlparse] refuses,
    [get_redirect_url] raises [ValueError] and returns no URL, whatever
    the arguments are. *)
Lemma get_redirect_url_refused :
  let w := canned_world_at "https://[x" (Some "abc") None (inr ∅) in
  client_server_url (this w) = "https://[x"
  ∧ (get_redirect_url (library := lenient) None None None None None None w).2
    = inl (Raised "ValueError")
  ∧ (get_redirect_url (library := lenient) (Some (Some "s"))
       (Some "https://app/") (Some "profile") None None (Some "abc") w).2
    = inl (Raised "ValueError").
Proof. by repeat split. Qed.

(** ** The client identifier in requests *)

Section ClientId.

Context {N : Type} {library : NetlocCheck}.
Implicit Types (w : world N) (self : Client N).

Lemma with_scope_lookup (scope : option string) (body : gmap string value)
    (k : string) :
  k ≠ "scope" → with_scope scope body !! k = body !! k.
Proof.
  intros Hk. destruct scope as [s|]; simpl; [| done].
  by rewrite lookup_insert_ne.
Qed.

Lemma token_body_client_id self code cid secret :
  token_body self code cid secret !! "client_id"
  = Some (of_opt (or_configured cid (client_id self))).
Proof.
  unfold token_body. rewrite lookup_insert_ne by done.
  by rewrite lookup_insert_eq.
Qed.

Lemma code_body_client_id self assertion scope cid :
  code_body self assertion scope cid !! "client_id"
  = Some (of_opt (or_configured cid (client_id self))).
Proof.
  unfold code_body. rewrite with_scope_lookup by done.
  rewrite !lookup_insert_ne by done. by rewrite lookup_insert_eq.
Qed.

Lemma implicit_body_client_id self assertion scope cid :
  implicit_body self assertion scope cid !! "client_id"
  = Some (of_opt (or_configured cid (client_id self))).
Proof.
  unfold implicit_body. rewrite with_scope_lookup by done.
  rewrite !lookup_insert_ne by done. by rewrite lookup_insert_eq.
Qed.

(** C7, as the code has it. Each of [trade_code], [authorize_code] and
    [authorize_token] hands exactly one request to the transport, whose body
    has a [client_id] entry: the argument when it is not [None], else the
    configured one. When both are [None] the request still goes out, with
    [client_id] set to [None]; no error is raised on the caller's side. *)
Theorem client_id_always_sent w cid :
  let effective := match cid with
                   | None => client_id (this w)
                   | Some _ => cid
                   end in
  (∀ code secret,
     let body := token_body (this w) code cid secret in
     sent (trade_code code cid secret w).1 = sent w ++ [("/v1/token", body)]
     ∧ body !! "client_id" = Some (of_opt effective))
  ∧ (∀ assertion scope,
       let body := code_body (this w) assertion scope cid in
       sent (authorize_code assertion scope cid w).1
       = sent w ++ [("/v1/authorization", body)]
       ∧ body !! "client_id" = Some (of_opt effective))
  ∧ (∀ assertion scope,
       let body := implicit_body (this w) assertion scope cid in
       sent (authorize_token assertion scope cid w).1
       = sent w ++ [("/v1/authorization", body)]
       ∧ body !! "client_id" = Some (of_opt effective))
  ∧ (cid = None → client_id (this w) = None → of_opt effective = VNone).
Proof.
  cbv zeta. split; [| split; [| split]].
  - intros code secret. split; [by rewrite trade_code_run |].
    apply token_body_client_id.
  - intros assertion scope. split; [by rewrite authorize_code_run |].
    apply code_body_client_id.
  - intros assertion scope. split; [by rewrite authorize_token_run |].
    apply implicit_body_client_id.
  - by intros -> ->.
Qed.

(** C8, as the code has it. Of the five methods, all but [verify_token]
    take a [client_id] parameter whose default is [None], and use the
    configured [client_id] in its place when it is [None]: as the first item
    of the redirect parameters and as the [client_id] of the request
    bodies. *)
Theorem client_id_override (self : Client N) (cid : option string) :
  let effective := match cid with
                   | None => client_id self
                   | Some _ => cid
                   end in
  (∀ m, accepts m "client_id" = true ↔ m ≠ VerifyToken)
  ∧ (∀ m, m ≠ VerifyToken → ("client_id", Default None) ∈ signature m)
  ∧ (∀ state redirect_uri scope action email,
       head (redirect_params self state redirect_uri scope action email cid)
       = Some ("client_id", effective))
  ∧ (∀ code secret,
       token_body self code cid secret !! "client_id" = Some (of_opt effective))
  ∧ (∀ assertion scope,
       code_body self assertion scope cid !! "client_id"
       = Some (of_opt effective))
  ∧ (∀ assertion scope,
       implicit_body self assertion scope cid !! "client_id"
       = Some (of_opt effective)).
Proof.
  cbv zeta. split; [| split; [| split; [| split; [| split]]]].
  - by intros [].
  - intros [] Hm; try done; unfold signature; set_solver.
  - intros. by rewrite redirect_params_given.
  - intros. apply token_body_client_id.
  - intros. apply code_body_client_id.
  - intros. apply implicit_body_client_id.
Qed.

End ClientId.

(** C7 as stated fails: with no [client_id] anywhere, [trade_code] still
    issues its request, with [client_id] set to [None], and returns what
    the server answered. *)
Lemma trade_code_without_client_id :
  let w := canned_world None None (inr sample_token) in
  let run := trade_code "1234" None None w in
  client_id (this w) = None
  ∧ sent w = []
  ∧ sent run.1 = [("/v1/token", token_body (this w) "1234" None None)]
  ∧ token_body (this w) "1234" None None !! "client_id" = Some VNone
  ∧ run.2 = inr (VStr "yeah").
Proof. by repeat split. Qed.

(** C8 as stated fails: [verify_token] has no [client_id] parameter, and
    its request carries no [client_id], configured or not. *)
Lemma verify_token_takes_no_client_id :
  let w := canned_world (Some "abc") None (inr sample_record) in
  let run := verify_token "token" VNone w in
  accepts VerifyToken "client_id" = false
  ∧ signature VerifyToken = [("token", Required); ("scope", Default None)]
  ∧ client_id (this w) = Some "abc"
  ∧ sent run.1 = [("/v1/verify", verify_body "token")]
  ∧ verify_body "token" !! "client_id" = None.
Proof. by repeat split. Qed.

(** * Further properties of the methods *)

(** ** Token flows and the transport *)

Section Flows.

Context {N : Type} {library : NetlocCheck}.
Implicit Types (w : world N) (self : Client N) (resp : gmap string value).

(** X1. Given the response to the assertion-for-token request,
    [authorize_token] returns its [access_token] value as it is, and raises
    [OutOfProtocolError] when the response has none, whatever else the
    response holds. *)
Theorem authorize_token_result w assertion scope cid resp :
  responds w "/v1/authorization"
    (implicit_body (this w) assertion scope cid) resp →
  let outcome := (authorize_token assertion scope cid w).2 in
  (∀ access_token,
     resp !! "access_token" = Some access_token → outcome = inr access_token)
  ∧ (resp !! "access_token" = None →
     outcome = inl (OutOfProtocolError "access_token missing in OAuth response")).
Proof.
  intros Hresp. unfold responds in Hresp. cbv zeta.
  rewrite authorize_token_run. cbv zeta. cbn [snd]. rewrite Hresp.
  split; by intros; simplify_eq/=; repeat case_match; simplify_eq.
Qed.

(** X2. What the transport adapter raises reaches the caller as it is: when
    the adapter answers the request of a method with the exception [e],
    the call of that method ends with [e], not with an error of its own;
    this holds for each of the four requesting methods and their own
    request. *)
Theorem transport_error_propagates w e :
  let raises url body :=
    (post (apiclient (this w)) url body (wire w)).2 = inl e in
  (∀ code cid secret,
     raises "/v1/token" (token_body (this w) code cid secret) →
     (trade_code code cid secret w).2 = inl e)
  ∧ (∀ assertion scope cid,
       raises "/v1/authorization" (code_body (this w) assertion scope cid) →
       (authorize_code assertion scope cid w).2 = inl e)
  ∧ (∀ assertion scope cid,
       raises "/v1/authorization" (implicit_body (this w) assertion scope cid) →
       (authorize_token assertion scope cid w).2 = inl e)
  ∧ (∀ token scope,
       raises "/v1/verify" (verify_body token) →
       (verify_token token scope w).2 = inl e).
Proof.
  cbv zeta. split; [| split; [| split]]; intros * Hraise.
  - rewrite trade_code_run. cbv zeta. cbn [snd]. by rewrite Hraise.
  - rewrite authorize_code_run. cbv zeta. cbn [snd]. by rewrite Hraise.
  - rewrite authorize_token_run. cbv zeta. cbn [snd]. by rewrite Hraise.
  - rewrite verify_token_run. cbv zeta. cbn [snd]. by rewrite Hraise.
Qed.

(** X3. A call of a requesting method is one call of the adapter, whatever
    its outcome: the world afterwards has the same client object, the
    adapter state that this one [post] returned, and one more request in the
    log, to the method's endpoint. *)
Theorem one_request_per_call w :
  let after url body :=
    {| this := this w;
       wire := (post (apiclient (this w)) url body (wire w)).1;
       sent := sent w ++ [(url, body)] |} in
  (∀ code cid secret,
     (trade_code code cid secret w).1
     = after "/v1/token" (token_body (this w) code cid secret))
  ∧ (∀ assertion scope cid,
       (authorize_code assertion scope cid w).1
       = after "/v1/authorization" (code_body (this w) assertion scope cid))
  ∧ (∀ assertion scope cid,
       (authorize_token assertion scope cid w).1
       = after "/v1/authorization"
           (implicit_body (this w) assertion scope cid))
  ∧ (∀ token scope,
       (verify_token token scope w).1 = after "/v1/verify" (verify_body token)).
Proof.
  cbv zeta. split; [| split; [| split]]; intros.
  - by rewrite trade_code_run.
  - by rewrite authorize_code_run.
  - by rewrite authorize_token_run.
  - by rewrite verify_token_run.
Qed.

End Flows.

Lemma authorize_token_result_witness :
  let w := canned_world (Some "abc") None (inr sample_token) in
  responds w "/v1/authorization"
    (implicit_body (this w) "assertion" (Some "profile") None) sample_token
  ∧ (authorize_token "assertion" (Some "profile") None w).2 = inr (VStr "yeah").
Proof.
  split; [reflexivity |].
  apply (authorize_token_result
           (canned_world (Some "abc") None (inr sample_token))
           "assertion" (Some "profile") None sample_token eq_refl).
  reflexivity.
Defined.

Lemma transport_error_propagates_witness :
  let w := canned_world (Some "abc") None (inl sample_failure) in
  (trade_code "1234" None None w).2 = inl sample_failure
  ∧ (authorize_code (library := lenient) "assertion" None None w).2
    = inl sample_failure
  ∧ (verify_token "token" VNone w).2 = inl sample_failure.
Proof.
  pose proof (transport_error_propagates (library := lenient)
                (canned_world (Some "abc") None (inl sample_failure))
                sample_failure) as (Htrade & Hcode & _ & Hverify).
  split; [| split].
  - by apply Htrade.
  - by apply Hcode.
  - by apply Hverify.
Defined.

(** ** What the requests carry *)

Section Bodies.

Context {N : Type}.
Implicit Types (w : world N) (self : Client N).

(** X4. The keys of the four request bodies: [client_secret] goes to the
    token endpoint only, [scope] is a key of the assertion requests only
    when it was given, and the verification request holds the token and
    nothing else. The parameters of the redirect URL and the assertion
    requests are the same for two clients that differ in their secret. *)
Theorem request_keys self code assertion token (scope cid secret : option string) :
  let scope_key : gset string :=
    match scope with
    | Some _ => {["scope"]}
    | None => ∅
    end in
  dom (token_body self code cid secret)
  = ({["code"; "client_id"; "client_secret"]} : gset string)
  ∧ dom (code_body self assertion scope cid)
    = {["client_id"; "assertion"; "state"]} ∪ scope_key
  ∧ dom (implicit_body self assertion scope cid)
    = {["client_id"; "assertion"; "response_type"; "state"]} ∪ scope_key
  ∧ dom (verify_body token) = ({["token"]} : gset string)
  ∧ (∀ (other : Client N) state redirect_uri action email,
       client_id other = client_id self →
       redirect_params other state redirect_uri scope action email cid
       = redirect_params self state redirect_uri scope action email cid
       ∧ code_body other assertion scope cid
         = code_body self assertion scope cid
       ∧ implicit_body other assertion scope cid
         = implicit_body self assertion scope cid).
Proof.
  cbv zeta. unfold token_body, code_body, implicit_body, verify_body, with_scope.
  split; [| split; [| split; [| split]]].
  - rewrite !dom_insert_L, dom_empty_L. set_solver.
  - destruct scope; rewrite !dom_insert_L, dom_empty_L; set_solver.
  - destruct scope; rewrite !dom_insert_L, dom_empty_L; set_solver.
  - rewrite !dom_insert_L, dom_empty_L. set_solver.
  - intros other state redirect_uri action email Hid.
    unfold redirect_params. by rewrite Hid.
Qed.

(** X5. [trade_code] sends the code it was given and the secret that
    applies: the [client_secret] argument when it is not [None], else the
    configured one, and [None] when there is neither. *)
Theorem token_body_secret self code (cid secret : option string) :
  token_body self code cid secret !! "code" = Some (VStr code)
  ∧ token_body self code cid secret !! "client_secret"
    = Some (of_opt match secret with
                   | None => client_secret self
                   | Some _ => secret
                   end).
Proof.
  unfold token_body. split.
  - rewrite !lookup_insert_ne by done. by rewrite lookup_insert_eq.
  - by rewrite lookup_insert_eq.
Qed.

(** X6. The assertion requests carry the [scope] argument when there is one
    and no [scope] entry at all when it is [None] (where [client_id] is
    sent even when it is [None]); [state] is always ["x"] and the assertion
    is the one given. *)
Theorem assertion_body_entries self assertion (scope cid : option string) :
  let code := code_body self assertion scope cid in
  let implicit := implicit_body self assertion scope cid in
  code !! "scope" = VStr <$> scope
  ∧ implicit !! "scope" = VStr <$> scope
  ∧ code !! "state" = Some (VStr "x")
  ∧ implicit !! "state" = Some (VStr "x")
  ∧ code !! "assertion" = Some (VStr assertion)
  ∧ implicit !! "assertion" = Some (VStr assertion)
  ∧ is_Some (code !! "client_id")
  ∧ is_Some (implicit !! "client_id").
Proof.
  cbv zeta. unfold code_body, implicit_body, with_scope.
  destruct scope; repeat split;
    rewrite ?lookup_insert_eq, ?lookup_insert_ne by done;
    rewrite ?lookup_insert_eq, ?lookup_insert_ne by done;
    rewrite ?lookup_insert_eq, ?lookup_insert_ne by done;
    rewrite ?lookup_insert_eq, ?lookup_insert_ne by done;
    rewrite ?lookup_insert_eq, ?lookup_insert_ne by done;
    by rewrite ?lookup_empty.
Qed.

(** X7. The request of [authorize_token] is the request of [authorize_code]
    for the same arguments with [response_type] set to ["token"], and that
    is their only difference: [authorize_code] sends no [response_type]. *)
Theorem implicit_body_code_body self assertion (scope cid : option string) :
  implicit_body self assertion scope cid
  = <["response_type" := VStr "token"]> (code_body self assertion scope cid)
  ∧ code_body self assertion scope cid !! "response_type" = None
  ∧ code_body self assertion scope cid
    = delete "response_type" (implicit_body self assertion scope cid).
Proof.
  assert (Hnone : code_body self assertion scope cid !! "response_type" = None).
  { unfold code_body. rewrite with_scope_lookup by done.
    rewrite !lookup_insert_ne by done. apply lookup_empty. }
  assert (Heq : implicit_body self assertion scope cid
                = <["response_type" := VStr "token"]>
                    (code_body self assertion scope cid)).
  { unfold implicit_body, code_body, with_scope. apply map_eq. intros k.
    destruct scope; rewrite !lookup_insert; repeat case_decide; congruence. }
  split; [done | split; [done |]].
  by rewrite Heq, delete_insert_id.
Qed.

End Bodies.

(** ** More on token verification *)

Section VerifyMore.

Context {N : Type}.
Implicit Types (w : world N) (resp : gmap string value).

(** X8. Without a [scope] argument the granted scope is not looked at:
    [verify_token] returns the response exactly when it has the three
    required fields, and never raises [ScopeMismatchError]. *)
Theorem verify_token_without_scope w token resp :
  responds w "/v1/verify" (verify_body token) resp →
  let outcome := (verify_token token VNone w).2 in
  (outcome = inr resp ↔ missing_keys resp = [])
  ∧ (∀ granted requested,
       outcome ≠ inl (ScopeMismatchError granted requested)).
Proof.
  intros Hresp. unfold responds in Hresp. cbv zeta.
  rewrite verify_token_run. cbv zeta. cbn [snd]. rewrite Hresp.
  rewrite <- missing_keys_join_empty.
  destruct (Str.join ", " (missing_keys resp)); by split.
Qed.

(** X9. A record that [verify_token] returns is the response of the
    adapter, it has the fields [user], [scope] and [client_id], and when a
    scope was asked for, its [scope] field satisfies it. *)
Theorem verify_token_record w token scope record :
  (verify_token token scope w).2 = inr record →
  responds w "/v1/verify" (verify_body token) record
  ∧ is_Some (record !! "user")
  ∧ is_Some (record !! "scope")
  ∧ is_Some (record !! "client_id")
  ∧ (scope ≠ VNone →
     ∃ granted, record !! "scope" = Some granted
                ∧ scope_matches granted scope = true).
Proof.
  rewrite verify_token_run. cbv zeta. cbn [snd]. unfold responds.
  destruct (post _ _ _ _).2 as [e|resp]; [done |].
  destruct (Str.join ", " (missing_keys resp)) eqn:Hjoin; [| done].
  apply missing_keys_join_empty in Hjoin. intros Hrecord.
  assert (resp = record ∧
          (scope ≠ VNone → ∃ granted, resp !! "scope" = Some granted
                                      ∧ scope_matches granted scope = true))
    as [-> Hscope].
  { destruct scope; try (split; [congruence | done]);
      destruct (resp !! "scope") as [g|]; try done;
      destruct (scope_matches g _) eqn:Hm; try done;
      (split; [congruence | by exists g]). }
  rewrite missing_keys_cases in Hjoin.
  destruct (record !! "user"), (record !! "scope"), (record !! "client_id");
    try done.
Qed.

End VerifyMore.

Lemma verify_token_without_scope_witness :
  let w := canned_world (Some "abc") None (inr sample_record) in
  responds w "/v1/verify" (verify_body "token") sample_record
  ∧ (verify_token "token" VNone w).2 = inr sample_record.
Proof.
  split; [reflexivity |].
  apply (verify_token_without_scope
           (canned_world (Some "abc") None (inr sample_record))
           "token" sample_record eq_refl).
  reflexivity.
Defined.

Lemma verify_token_record_witness :
  let w := canned_world (Some "abc") None (inr sample_record) in
  (verify_token "token" (VStr "profile/email") w).2 = inr sample_record
  ∧ is_Some (sample_record !! "user")
  ∧ scope_matches (VStr "profile") (VStr "profile/email") = true.
Proof.
  split; [reflexivity |].
  destruct (verify_token_record
              (canned_world (Some "abc") None (inr sample_record))
              "token" (VStr "profile/email") sample_record eq_refl)
    as (_ & Huser & _ & _ & _).
  split; [exact Huser | reflexivity].
Defined.

(** ** More on the authorization code *)

Section CodeMore.

Lemma unquote_to_bytes_nonempty (s : string) :
  s ≠ "" → Url.unquote_to_bytes s ≠ "".
Proof.
  destruct s as [|c s]; [done |]. intros _. cbn [Url.unquote_to_bytes].
  destruct (Ascii.eqb c "%"); [| done].
  destruct s as [|h [|l s]]; try done.
  by destruct (Url.hex_value h), (Url.hex_value l).
Qed.

Lemma append_nonempty_r (a b : string) : b ≠ "" → a +:+ b ≠ "".
Proof. destruct a; [done |]. by rewrite append_cons. Qed.

Lemma replacement_nonempty (s : string) : Url.replacement +:+ s ≠ "".
Proof. unfold Url.replacement. by rewrite append_cons. Qed.

Lemma utf8_replace_nonempty (s : string) : s ≠ "" → Url.utf8_replace s ≠ "".
Proof.
  destruct s as [|c s]; [done |]. intros _. cbn [Url.utf8_replace]. cbv zeta.
  repeat case_match; try done; try apply replacement_nonempty.
Qed.

Lemma unquote_runs_nonempty (run s : string) :
  run ≠ "" ∨ s ≠ "" → Url.unquote_runs run s ≠ "".
Proof.
  revert run. induction s as [|c s IH]; intros run Hne.
  - destruct Hne as [Hrun|]; [| done].
    by apply utf8_replace_nonempty, unquote_to_bytes_nonempty.
  - cbn [Url.unquote_runs]. destruct (Url.is_ascii c).
    + apply IH. left. by apply append_nonempty_r.
    + by apply append_nonempty_r.
Qed.

Lemma unquote_nonempty (s : string) : s ≠ "" → Url.unquote s ≠ "".
Proof.
  intros Hs. unfold Url.unquote. destruct (Str.mem "%" s); [| done].
  apply unquote_runs_nonempty. by right.
Qed.

Lemma replace_nonempty (a b : ascii) (s : string) :
  s ≠ "" → Str.replace a b s ≠ "".
Proof. by destruct s. Qed.

Lemma parse_field_value (f n v : string) :
  Url.parse_field f = Some (n, v) → v ≠ "".
Proof.
  unfold Url.parse_field. destruct (Str.cut "=" f) as [[n' v']|]; [| done].
  destruct v' as [|c rest]; [done |]. intros Hf.
  assert (Hv : v = Url.unquote (Str.replace "+" " " (String c rest)))
    by congruence.
  rewrite Hv. by apply unquote_nonempty, replace_nonempty.
Qed.

Lemma values_of_nonempty (name qs v : string) :
  v ∈ Url.values_of name (Url.parse_qsl qs) → v ≠ "".
Proof.
  unfold Url.values_of, Url.parse_qsl.
  intros ([n v'] & -> & Hin)%list_elem_of_fmap.
  apply list_elem_of_filter in Hin as [_ Hin].
  apply list_elem_of_omap in Hin as (f & _ & Hf).
  by eapply parse_field_value.
Qed.

Context {N : Type} {library : NetlocCheck}.
Implicit Types (w : world N) (resp : gmap string value).

(** X10. A redirect URL that [urlparse] accepts and that has no [?] has no
    query to look in: the outcome is [OutOfProtocolError] for the missing
    code, also when the text [code=...] stands in the path or in the
    fragment. *)
Theorem authorize_code_without_query w assertion scope cid resp url parsed :
  responds w "/v1/authorization" (code_body (this w) assertion scope cid) resp →
  resp !! "redirect" = Some (VStr url) →
  Url.urlparse url = inr parsed →
  Str.mem "?" url = false →
  (authorize_code assertion scope cid w).2
  = inl (OutOfProtocolError "code missing in OAuth redirect url").
Proof.
  intros Hresp Hurl Hparsed Hq. unfold responds in Hresp.
  rewrite authorize_code_run. cbv zeta. cbn [snd].
  rewrite Hresp, Hurl. cbn [Url.urlparse_value].
  by rewrite Hparsed, (urlparse_no_query url parsed).
Qed.

(** X11. [authorize_code] undoes the URL-encoding of the code: when
    [urlparse] accepts the redirect URL and finds as its query the
    [urlencode] of items that start with a non-empty [code], well-formed
    UTF-8, the method returns that code, byte for byte. *)
Theorem authorize_code_decodes
    w assertion scope cid resp url parsed code others :
  responds w "/v1/authorization" (code_body (this w) assertion scope cid) resp →
  resp !! "redirect" = Some (VStr url) →
  Url.urlparse url = inr parsed →
  Url.query parsed = Url.urlencode (("code", Some code) :: others) →
  Url.utf8_replace code = code →
  code ≠ "" →
  (authorize_code assertion scope cid w).2 = inr code.
Proof.
  intros Hresp Hurl Hparsed Hquery Hutf8 Hcode. unfold responds in Hresp.
  rewrite authorize_code_run. cbv zeta. cbn [snd].
  rewrite Hresp, Hurl. cbn [Url.urlparse_value]. rewrite Hparsed, Hquery.
  unfold Url.parse_qsl. rewrite urlencode_split by done.
  rewrite map_cons. cbn [omap list_omap fst snd Url.py_str].
  rewrite (parse_field_quoted "code" code) by done.
  destruct code as [|c code]; [done |].
  change (list_omap ?f ?l) with (omap f l).
  by rewrite values_of_cons, decide_True.
Qed.

(** X12. A code that [authorize_code] returns is never the empty string. *)
Theorem authorize_code_nonempty w assertion scope cid code :
  (authorize_code assertion scope cid w).2 = inr code → code ≠ "".
Proof.
  rewrite authorize_code_run. cbv zeta. cbn [snd].
  destruct (post _ _ _ _).2 as [e|resp]; [done |].
  destruct (resp !! "redirect") as [redirect|]; [| done].
  destruct (Url.urlparse_value redirect) as [e|parsed]; [done |].
  destruct (Url.values_of _ _) as [|v vs] eqn:Hvs; [done |].
  intros [= <-]. apply (values_of_nonempty "code" (Url.query parsed)).
  rewrite Hvs. by left.
Qed.

End CodeMore.

Lemma authorize_code_without_query_witness :
  let w := canned_world (Some "abc") None (inr sample_redirect_bare) in
  (responds w "/v1/authorization" (code_body (this w) "assertion" None None)
     sample_redirect_bare
   ∧ Str.mem "?" "https://x/cb#code=abc123" = false)
  ∧ (authorize_code (library := lenient) "assertion" None None w).2
    = inl (OutOfProtocolError "code missing in OAuth redirect url").
Proof.
  split; [by split |].
  apply (authorize_code_without_query (library := lenient)
           (canned_world (Some "abc") None (inr sample_redirect_bare))
           "assertion" None None sample_redirect_bare
           "https://x/cb#code=abc123"
           {| Url.scheme := "https"; Url.netloc := "x"; Url.path := "/cb";
              Url.params := ""; Url.query := "";
              Url.fragment := "code=abc123" |});
    reflexivity.
Defined.

Lemma authorize_code_decodes_witness :
  let w := canned_world (Some "abc") None (inr sample_redirect_escaped) in
  (responds w "/v1/authorization" (code_body (this w) "assertion" None None)
     sample_redirect_escaped
   ∧ Url.urlencode sample_items = "code=a+b%2Fc%26d%3De&state=x")
  ∧ (authorize_code (library := lenient) "assertion" None None w).2
    = inr "a b/c&d=e".
Proof.
  split; [by split |].
  apply (authorize_code_decodes (library := lenient)
           (canned_world (Some "abc") None (inr sample_redirect_escaped))
           "assertion" None None sample_redirect_escaped
           ("https://x/cb" +:+ "?" +:+ Url.urlencode sample_items)
           {| Url.scheme := "https"; Url.netloc := "x"; Url.path := "/cb";
              Url.params := ""; Url.query := Url.urlencode sample_items;
              Url.fragment := "" |}
           "a b/c&d=e" [("state", Some "x")]);
    [reflexivity | reflexivity | reflexivity | reflexivity | reflexivity
    | discriminate].
Defined.

Lemma authorize_code_nonempty_witness :
  let w := canned_world (Some "abc") None (inr sample_redirect) in
  (authorize_code (library := lenient) "assertion" None None w).2
  = inr "abc123"
  ∧ "abc123" ≠ "".
Proof.
  split; [reflexivity |].
  apply (authorize_code_nonempty (library := lenient)
           (canned_world (Some "abc") None (inr sample_redirect))
           "assertion" None None "abc123").
  reflexivity.
Defined.

(** ** More on the redirect URL *)

Section RedirectMore.

Context {N : Type} {library : NetlocCheck}.
Implicit Types (w : world N).

(** X13. When [urlparse] accepts the server URL followed by
    [/v1/authorization], the URL that [get_redirect_url] returns has,
    right after the [?], [client_id=] and the encoded client identifier,
    then [&state=] and the encoded state; what follows is empty or starts
    with [&] or with the [#] of the fragment. With no client identifier
    given or configured, the URL reads [client_id=None]. *)
Theorem get_redirect_url_head
    w state redirect_uri scope action email cid parsed :
  Url.urlparse (client_server_url (this w) +:+ "/v1/authorization")
  = inr parsed →
  let effective := match cid with
                   | None => client_id (this w)
                   | Some _ => cid
                   end in
  let passed := match state with
                | None => Some ""
                | Some passed => passed
                end in
  ∃ rest,
    (get_redirect_url state redirect_uri scope action email cid w).2
    = inr (Url.front parsed +:+ "?" +:+
           "client_id=" +:+ Url.quote_plus (Url.py_str effective)
           +:+ "&state=" +:+ Url.quote_plus (Url.py_str passed) +:+ rest)
    ∧ (rest = "" ∨ Str.startswith rest "&" = true
       ∨ Str.startswith rest "#" = true)
    ∧ (effective = None →
       (get_redirect_url state redirect_uri scope action email cid w).2
       = inr (Url.front parsed +:+ "?client_id=None&state="
              +:+ Url.quote_plus (Url.py_str passed) +:+ rest)).
Proof.
  intros Hparsed. cbv zeta. rewrite get_redirect_url_run, Hparsed.
  rewrite redirect_params_given. cbn [fst snd].
  set (effective := match cid with
                    | None => client_id (this w)
                    | Some _ => cid
                    end).
  assert (Hstate : default (Some "") state
                   = match state with
                     | None => Some ""
                     | Some passed => passed
                     end) by by destruct state.
  rewrite Hstate. set (passed := match state with
                                 | None => Some ""
                                 | Some passed => passed
                                 end).
  set (given := filter _ _).
  set (suffix := match Url.fragment parsed with
                 | EmptyString => ""
                 | f => "#" +:+ f
                 end).
  set (more := match given with
               | [] => ""
               | _ => "&" +:+ Url.urlencode given
               end).
  assert (Hquery :
    Url.urlencode ([("client_id", effective); ("state", passed)] ++ given)
    = "client_id=" +:+ Url.quote_plus (Url.py_str effective)
      +:+ "&state=" +:+ Url.quote_plus (Url.py_str passed) +:+ more).
  { subst more. unfold Url.urlencode. cbn [app map].
    rewrite join_cons by done.
    destruct given as [|kv given].
    - cbn [map Str.join fst snd].
      change (Url.quote_plus "client_id") with "client_id".
      change (Url.quote_plus "state") with "state".
      by rewrite !append_assoc, append_empty_r.
    - rewrite join_cons by done. cbn [fst snd].
      change (Url.quote_plus "client_id") with "client_id".
      change (Url.quote_plus "state") with "state".
      by rewrite !append_assoc. }
  exists (more +:+ suffix).
  rewrite urlunparse_query by by apply urlencode_nonempty.
  fold suffix. rewrite Hquery.
  split; [by rewrite !append_assoc | split].
  - subst more suffix. destruct given.
    + rewrite append_nil_l. destruct (Url.fragment parsed); [by left |].
      right. right. unfold Str.startswith. apply prefix_spec. by eexists.
    + right. left. unfold Str.startswith. apply prefix_spec.
      eexists. by rewrite append_assoc.
  - intros ->. by rewrite !append_assoc.
Qed.

End RedirectMore.

Lemma get_redirect_url_head_witness :
  let w := canned_world None None (inr ∅) in
  Url.urlparse (library := lenient)
    (client_server_url (this w) +:+ "/v1/authorization")
  = inr {| Url.scheme := "https"; Url.netloc := "oauth.accounts.firefox.com";
           Url.path := "/v1/authorization"; Url.params := "";
           Url.query := ""; Url.fragment := "" |}
  ∧ ∃ rest,
      (get_redirect_url (library := lenient) None None None None None None w).2
      = inr ("https://oauth.accounts.firefox.com/v1/authorization"
             +:+ "?client_id=None&state=" +:+ rest).
Proof.
  split; [reflexivity |].
  destruct (get_redirect_url_head (library := lenient)
              (canned_world None None (inr ∅)) None None None None None None
              {| Url.scheme := "https";
                 Url.netloc := "oauth.accounts.firefox.com";
                 Url.path := "/v1/authorization"; Url.params := "";
                 Url.query := ""; Url.fragment := "" |} eq_refl)
    as (rest & _ & _ & Hnone).
  exists rest. apply Hnone. reflexivity.
Defined.

(** ** Trading the code that was obtained *)

Section CodeThenToken.

Context {N : Type} {library : NetlocCheck}.
Implicit Types (w : world N).

(** X14. [authorize_code] followed by [trade_code] on its result: when the
    first step raises, the second request is never made and the error is
    the outcome; otherwise the two requests go out in this order, the
    second one carrying the code just obtained, and the outcome is that of
    [trade_code]. The client object is the same afterwards. *)
Theorem authorize_code_then_trade_code w assertion scope cid secret :
  let first := authorize_code assertion scope cid w in
  let both :=
    (code ← authorize_code assertion scope cid; trade_code code cid secret) w in
  let authorization :=
    ("/v1/authorization", code_body (this w) assertion scope cid) in
  this both.1 = this w
  ∧ match first.2 with
    | inl e => both.2 = inl e ∧ sent both.1 = sent w ++ [authorization]
    | inr code =>
        both.2 = (trade_code code cid secret first.1).2
        ∧ sent both.1
          = sent w ++ [authorization;
                       ("/v1/token", token_body (this w) code cid secret)]
        ∧ token_body (this w) code cid secret !! "code" = Some (VStr code)
    end.
Proof.
  cbv zeta. unfold mbind, M_bind, bind.
  pose proof (authorize_code_run w assertion scope cid) as Hrun.
  destruct (authorize_code assertion scope cid w) as [w1 [e|code]] eqn:Hfirst.
  - cbn [fst snd]. injection Hrun as -> _. by cbn.
  - cbn [fst snd]. injection Hrun as Hw1 _.
    rewrite trade_code_run. cbv zeta. cbn [fst snd this sent]. subst w1.
    cbn [this sent]. rewrite <- app_assoc.
    split; [done | split; [done | split; [done |]]].
    unfold token_body. rewrite !lookup_insert_ne by done.
    by rewrite lookup_insert_eq.
Qed.

End CodeThenToken.
